(** * koishi-plugin-d2rtz: Terror-Zone rotation lookup and item appraisal

    A shallow embedding of the plugin's TypeScript sources:
    - [fetch.ts]  : [fetchTzOnline], [processTzOnlineData]
    - [areas.ts]  : the area table built from the bundled raw data
    - [index.ts]  : [recognizeImage], [preprocessOcrText], [analyzeItem]
                    and the two command handlers.

    JavaScript strings are sequences of UTF-16 code units; they are
    modelled as [list N].  Regular expressions are interpreted by a small
    backtracking matcher that follows the ECMAScript matching order. *)

From Stdlib Require Import NArith ZArith Ascii String List Lia Bool Sorted.
From stdpp Require Import base tactics option list gmap pretty.
Import ListNotations.

Local Open Scope N_scope.

(** ** JavaScript strings *)

Module JsStr.

(** One UTF-16 code unit. *)
Definition char := N.
(** A JavaScript string value. *)
Definition str := list char.

(** *** Writing literals

    Source literals are written as Rocq strings (UTF-8 bytes) and decoded
    to code units, with the escapes [\n] and [\\] of the source syntax. *)

Fixpoint bytes_of (s : string) : list N :=
  match s with
  | EmptyString => []
  | String a s' => N_of_ascii a :: bytes_of s'
  end.

Fixpoint unescape (bs : list N) : list N :=
  match bs with
  | 92 :: 110 :: r => 10 :: unescape r
  | 92 :: 92 :: r => 92 :: unescape r
  | b :: r => b :: unescape r
  | [] => []
  end.

Definition cont (b : N) : N := N.land b 63.

Fixpoint utf8_decode (bs : list N) : list N :=
  match bs with
  | [] => []
  | b0 :: r =>
    if b0 <? 128 then b0 :: utf8_decode r
    else if b0 <? 224 then
      match r with
      | b1 :: r1 => (N.shiftl (N.land b0 31) 6 + cont b1) :: utf8_decode r1
      | _ => []
      end
    else if b0 <? 240 then
      match r with
      | b1 :: b2 :: r2 =>
        (N.shiftl (N.land b0 15) 12 + N.shiftl (cont b1) 6 + cont b2)
          :: utf8_decode r2
      | _ => []
      end
    else
      match r with
      | b1 :: b2 :: b3 :: r3 =>
        (N.shiftl (N.land b0 7) 18 + N.shiftl (cont b1) 12
         + N.shiftl (cont b2) 6 + cont b3) :: utf8_decode r3
      | _ => []
      end
  end.

(** Code point to UTF-16 code units (surrogate pair above the BMP). *)
Definition utf16_units (cp : N) : list char :=
  if cp <? 65536 then [cp]
  else let v := cp - 65536 in
       [55296 + N.shiftr v 10; 56320 + N.land v 1023].

Definition js (s : string) : str :=
  concat (map utf16_units (utf8_decode (unescape (bytes_of s)))).
Arguments js : simpl never.

(** *** Whitespace and line terminators (ECMAScript [WhiteSpace] and
    [LineTerminator]), as used by [\s], [.] and [String.prototype.trim]. *)

Definition is_line_terminator (c : char) : bool :=
  (c =? 10) || (c =? 13) || (c =? 8232) || (c =? 8233).

Definition is_ws (c : char) : bool :=
  (c =? 9) || (c =? 11) || (c =? 12) || (c =? 32) || (c =? 160)
  || (c =? 5760) || ((8192 <=? c) && (c <=? 8202))
  || (c =? 8239) || (c =? 8287) || (c =? 12288) || (c =? 65279)
  || is_line_terminator c.

Definition is_digit (c : char) : bool := (48 <=? c) && (c <=? 57).

(** *** String operations *)

Fixpoint drop_while (p : char -> bool) (s : str) : str :=
  match s with
  | c :: s' => if p c then drop_while p s' else s
  | [] => []
  end.

Definition drop_ws : str -> str := drop_while is_ws.

(** [String.prototype.trim] *)
Definition trim (s : str) : str := rev (drop_ws (rev (drop_ws s))).

(** [s.split(sep)] for a one-unit separator. *)
Fixpoint split (sep : char) (s : str) : list str :=
  match s with
  | [] => [[]]
  | c :: s' =>
    if c =? sep then [] :: split sep s'
    else match split sep s' with
         | l :: ls => (c :: l) :: ls
         | [] => [[c]]
         end
  end.

(** [lines.join(sep)] *)
Fixpoint join (sep : str) (ls : list str) : str :=
  match ls with
  | [] => []
  | [l] => l
  | l :: ls' => l ++ sep ++ join sep ls'
  end.

Fixpoint starts_with (p s : str) : bool :=
  match p, s with
  | [], _ => true
  | a :: p', b :: s' => (a =? b) && starts_with p' s'
  | _ :: _, [] => false
  end.

(** [s.includes(p)] *)
Fixpoint includes (s p : str) : bool :=
  starts_with p s ||
  match s with
  | [] => false
  | _ :: s' => includes s' p
  end.

(** [arr.slice(start, end)] with the relative-index rule for negative
    arguments. *)
Definition rel_index (len k : Z) : Z :=
  if (k <? 0)%Z then Z.max (len + k) 0 else Z.min k len.

Definition slice {A} (l : list A) (start stop : Z) : list A :=
  let len := Z.of_nat (length l) in
  let k := rel_index len start in
  let e := rel_index len stop in
  take (Z.to_nat (e - k)) (drop (Z.to_nat k) l).

Definition slice_from {A} (l : list A) (start : Z) : list A :=
  slice l start (Z.of_nat (length l)).

(** Decimal rendering of an integer, as a template literal renders a
    number that is an integer. *)
Definition of_Z (z : Z) : str :=
  map N_of_ascii (list_ascii_of_string (pretty z)).
Arguments of_Z : simpl never.

End JsStr.

(** ** Regular expressions *)

Module Regex.
Import JsStr.

(** The fragment used by the plugin: character classes, concatenation,
    greedy repetition of a class, and negative lookahead. *)
Inductive re :=
| Eps
| Chr (p : char -> bool)
| Cat (r1 r2 : re)
| Star (p : char -> bool)
| NotAhead (r : re).

Definition ch (c : char) : char -> bool := fun x => x =? c.
Definition not_ch (c : char) : char -> bool := fun x => negb (x =? c).

(** [p+] on a class *)
Definition Plus (p : char -> bool) : re := Cat (Chr p) (Star p).

Fixpoint Lit (s : str) : re :=
  match s with
  | [] => Eps
  | c :: s' => Cat (Chr (ch c)) (Lit s')
  end.

Fixpoint Seq (rs : list re) : re :=
  match rs with
  | [] => Eps
  | r :: rs' => Cat r (Seq rs')
  end.

(** Greedy repetition with backtracking: take as many units as possible,
    give them back one at a time until the continuation succeeds. *)
Fixpoint star (p : char -> bool) (k : str -> option str) (s : str)
  : option str :=
  match s with
  | c :: s' =>
    if p c then
      match star p k s' with
      | Some r => Some r
      | None => k s
      end
    else k s
  | [] => k []
  end.

(** [exec r s k]: match [r] at the start of [s], then continue with [k]
    on what is left; the result is the input left after the whole match. *)
Fixpoint exec (r : re) (s : str) (k : str -> option str) : option str :=
  match r with
  | Eps => k s
  | Chr p =>
    match s with
    | c :: s' => if p c then k s' else None
    | [] => None
    end
  | Cat a b => exec a s (fun s' => exec b s' k)
  | Star p => star p k s
  | NotAhead a =>
    match exec a s Some with
    | Some _ => None
    | None => k s
    end
  end.

Definition match_at (r : re) (s : str) : option str := exec r s Some.

(** [s.replace(/r/g, rep)]: scan from the left; a non-empty match is
    replaced and scanning resumes after it, an empty match inserts [rep]
    and moves on by one unit. *)
Fixpoint replace_fuel (n : nat) (r : re) (rep s : str) : str :=
  match n with
  | O => s
  | S n' =>
    match s with
    | [] => match match_at r [] with Some _ => rep | None => [] end
    | c :: s' =>
      match match_at r s with
      | Some rest =>
        if (length rest <? length s)%nat
        then rep ++ replace_fuel n' r rep rest
        else rep ++ c :: replace_fuel n' r rep s'
      | None => c :: replace_fuel n' r rep s'
      end
    end
  end.

Definition replaceAll (r : re) (rep s : str) : str :=
  replace_fuel (S (length s)) r rep s.

End Regex.

(** ** index.ts: OCR text preprocessing *)

Module Ocr.
Import JsStr Regex.

(** [/\[(?!ETH\])[^\]]*\]/g] *)
Definition re_bracket : re :=
  Seq [Chr (ch 91); NotAhead (Lit (js "ETH]")); Star (not_ch 93); Chr (ch 93)].

(** [/\[\d+ED\/[\d\/]+\]/g] *)
Definition re_numeric_tag : re :=
  Seq [Chr (ch 91); Plus is_digit; Lit (js "ED/");
       Plus (fun c => is_digit c || (c =? 47)); Chr (ch 93)].

(** [/『[^』]*』/g] *)
Definition re_corner : re :=
  Seq [Chr (ch 12302); Star (not_ch 12303); Chr (ch 12303)].

Definition is_colon (c : char) : bool := (c =? 65306) || (c =? 58).
Definition dot (c : char) : bool := negb (is_line_terminator c).

(** [/缀[：:].*/g] *)
Definition re_suffix_note : re :=
  Seq [Chr (ch 32512); Chr is_colon; Star dot].

(** [/前缀[：:].*/g] *)
Definition re_prefix_note : re :=
  Seq [Chr (ch 21069); Chr (ch 32512); Chr is_colon; Star dot].

(** [/\n\s*\n/g] *)
Definition re_blank_lines : re :=
  Seq [Chr (ch 10); Star is_ws; Chr (ch 10)].

(** The chain of substitutions and the trim that produce [processedText]. *)
Definition clean (ocrText : str) : str :=
  trim
    (replaceAll re_blank_lines (js "\n")
    (replaceAll re_prefix_note []
    (replaceAll re_suffix_note []
    (replaceAll re_corner []
    (replaceAll re_numeric_tag []
    (replaceAll re_bracket [] ocrText)))))).

(** The three phrasings tested by the loop. *)
Definition marker1 : str := js "需要等級".
Definition marker2 : str := js "等级需求".
Definition marker3 : str := js "Requires Level".

Definition is_level_line (l : str) : bool :=
  includes l marker1 || includes l marker2 || includes l marker3.

(** The [for] loop with [break]: index of the first matching line from
    position [i] on, [-1] when there is none. *)
Fixpoint find_level (lines : list str) (i : Z) : Z :=
  match lines with
  | [] => (-1)%Z
  | l :: rest => if is_level_line l then i else find_level rest (i + 1)%Z
  end.

Definition preprocessOcrText (ocrText : str) : str :=
  let processedText := clean ocrText in
  let lines := split 10 processedText in
  let levelRequirementIndex := find_level lines 0%Z in
  if negb (levelRequirementIndex =? -1)%Z then
    let nameLines := slice lines 0 (Z.min 3 levelRequirementIndex) in
    let propertyLines := slice_from lines levelRequirementIndex in
    trim (join (js "\n") (nameLines ++ propertyLines))
  else processedText.
Arguments preprocessOcrText : simpl never.

End Ocr.

(** ** Effects: exceptions, the cache file, logging and HTTP *)

Module Eff.
Import JsStr.

(** A call either returns or throws an [Error] with a message. *)
Inductive outcome (A : Type) : Type :=
| Return (a : A)
| Throw (message : str).
Arguments Return {A} a.
Arguments Throw {A} message.

(** The JSON body of a request, by its fields. *)
Inductive Body :=
| NoBody
| OcrBody (model imageUrl text : str)
| ChatBody (model system user : str).

Record Request := {
  req_method : str;
  req_url : str;
  req_auth : str;
  req_body : Body
}.

(** What [fetch] settles to: a rejection (network failure) or a response
    with its status line and the text of its body. *)
Record Response := {
  status : Z;
  statusText : str;
  body : str
}.

Inductive FetchResult : Type :=
| NetworkError (message : str)
| Responded (r : Response).

(** [response.ok] *)
Definition ok (r : Response) : bool :=
  ((200 <=? status r) && (status r <=? 299))%Z.

Inductive event :=
| Log (message : str)
| Sleep (ms : Z)
| Fetch (req : Request).

Record CacheFile := { mtime : Z; content : str }.

(** The cache directory and, inside it, [tz_online.json]. *)
Inductive CacheFs :=
| NoDir
| Dir (file : option CacheFile).

Record World := { fs : CacheFs; trace : list event }.

Definition M (A : Type) : Type := World -> outcome A * World.

Definition ret {A} (a : A) : M A := fun w => (Return a, w).

Definition bind {A B} (m : M A) (f : A -> M B) : M B :=
  fun w =>
    match m w with
    | (Return a, w') => f a w'
    | (Throw e, w') => (Throw e, w')
    end.

Definition throw {A} (message : str) : M A := fun w => (Throw message, w).

(** [try { body } catch (error) { handler(error.message) }] *)
Definition try_catch {A} (body : M A) (handler : str -> M A) : M A :=
  fun w =>
    match body w with
    | (Return a, w') => (Return a, w')
    | (Throw e, w') => handler e w'
    end.

Definition emit (e : event) : M unit :=
  fun w => (Return tt, {| fs := fs w; trace := trace w ++ [e] |}).

Definition lift {A} (o : outcome A) : M A := fun w => (o, w).

(** [await fetch(...)] against a server that may answer differently over
    time: the answer depends on everything that happened so far. *)
Definition fetch (net : list event -> Request -> FetchResult)
    (req : Request) : M Response :=
  fun w =>
    let w' := {| fs := fs w; trace := trace w ++ [Fetch req] |} in
    match net (trace w) req with
    | NetworkError m => (Throw m, w')
    | Responded r => (Return r, w')
    end.

Definition get_fs : M CacheFs := fun w => (Return (fs w), w).
Definition set_fs (f : CacheFs) : M unit :=
  fun w => (Return tt, {| fs := f; trace := trace w |}).

End Eff.

Notation "x <- m ;; k" := (Eff.bind m (fun x => k))
  (at level 90, m at next level, right associativity).
Notation "m ;;; k" := (Eff.bind m (fun _ => k))
  (at level 90, right associativity).

(** ** fetch.ts and areas.ts: the Terror-Zone rotation *)

Module Tz.
Import JsStr Eff.

(** *** areas.ts *)

(** One record of the bundled data set ([raw_areas], not part of the
    sources at hand): its [id], [name['zh-cn']] and ['tier-loot']. *)
Record RawArea := { id : Z; name_zh_cn : str; tier_loot : str }.

Record AreaInfo := { name : str; tier : str }.

(** [rawAreas.forEach(area => { areas[area.id] = {...} })] *)
Definition build_areas (rawAreas : list RawArea) : gmap Z AreaInfo :=
  foldl (fun areas area =>
           <[id area := {| name := name_zh_cn area; tier := tier_loot area |}]>
             areas)
        ∅ rawAreas.

(** *** Payloads *)

Record RotationEntry := { zone : Z; time : Z }.

(** The values a payload can be.  Numbers are integers; the elements of an
    array are rotation entries, as the API contract has them. *)
#[warnings="-register-all"] Inductive jsval :=
| JUndefined
| JNull
| JBool (b : bool)
| JNum (n : Z)
| JStr (s : str)
| JArr (entries : list RotationEntry)
| JObj (fields : list (str * jsval)).

(** [!v] is [negb (truthy v)] *)
Definition truthy (v : jsval) : bool :=
  match v with
  | JUndefined | JNull => false
  | JBool b => b
  | JNum n => negb (n =? 0)%Z
  | JStr s => negb (bool_decide (s = []))
  | JArr _ | JObj _ => true
  end.

(** An object literal or parsed JSON object keeps the last binding of a
    repeated key. *)
Fixpoint lookup_field (k : str) (fields : list (str * jsval)) : jsval :=
  match fields with
  | [] => JUndefined
  | (k', v) :: rest =>
    match lookup_field k rest with
    | JUndefined => if bool_decide (k' = k) then v else JUndefined
    | found => found
    end
  end.

(** [v.data] on a value that is neither [null] nor [undefined] *)
Definition get_data (v : jsval) : jsval :=
  match v with
  | JObj fields => lookup_field (js "data") fields
  | _ => JUndefined
  end.

(** *** [Array.prototype.sort] with a consistent comparator: the stable
    rearrangement into ascending order. *)

Fixpoint insert_by {A} (cmp : A -> A -> Z) (x : A) (l : list A) : list A :=
  match l with
  | [] => [x]
  | y :: l' => if (cmp x y <=? 0)%Z then x :: l else y :: insert_by cmp x l'
  end.

Definition sort_by {A} (cmp : A -> A -> Z) (l : list A) : list A :=
  foldr (insert_by cmp) [] l.

(** *** [processTzOnlineData] (its [console.log] calls are left out) *)

Definition invalid_format : str := js "Invalid data format".

Definition format_message (current next : AreaInfo) : str :=
  js "TZ：" ++ name current ++ js "，掉落：" ++ tier current ++ js "\n"
  ++ js "Next：" ++ name next ++ js "，掉落：" ++ tier next.

Definition processTzOnlineData (areas : gmap Z AreaInfo) (data : jsval)
  : outcome str :=
  if negb (truthy data) then Throw invalid_format
  else if negb (truthy (get_data data)) then Throw invalid_format
  else
    match get_data data with
    | JArr entries =>
      if (length entries <? 2)%nat then Throw invalid_format
      else
        let sortedData := sort_by (fun a b => time a - time b)%Z entries in
        match sortedData with
        | currentZoneData :: nextZoneData :: _ =>
          let currentZoneId := zone currentZoneData in
          let nextZoneId := zone nextZoneData in
          match areas !! currentZoneId, areas !! nextZoneId with
          | None, _ =>
            Throw (js "Area info not found for current zone: "
                   ++ of_Z currentZoneId)
          | Some _, None =>
            Throw (js "Area info not found for next zone: "
                   ++ of_Z nextZoneId)
          | Some currentAreaInfo, Some nextAreaInfo =>
            Return (format_message currentAreaInfo nextAreaInfo)
          end
        | _ => Throw (js "Cannot read properties of undefined")
        end
    | _ => Throw invalid_format
    end.

(** *** [fetchTzOnline] *)

(** [Date] in the process's time zone: the calendar fields of an instant
    given in milliseconds since the epoch. *)
Record Calendar := {
  getHours : Z -> Z;
  getDate : Z -> Z;
  getMonth : Z -> Z;
  getFullYear : Z -> Z
}.

(** The surroundings of a call: the clock reading of [new Date()], the
    instant at which a later write reaches the disk, the rotation API, and
    [JSON.parse] / [JSON.stringify(_, null, 2)]. *)
Record Env := {
  cal : Calendar;
  now : Z;
  write_time : Z;
  api : list event -> Request -> FetchResult;
  JSON_parse : str -> outcome jsval;
  JSON_stringify : jsval -> str
}.

Record Config := {
  apiUrl : option str;
  groupId : option str;
  authToken : option str;
  sendMessageUrl : option str
}.

Definition default_api_url : str :=
  js "https://api.d2-trade.com/api/query/tz_online".

(** [config?.apiUrl || default] *)
Definition api_url (config : option Config) : str :=
  match config with
  | Some c =>
    match apiUrl c with
    | Some u => if bool_decide (u = []) then default_api_url else u
    | None => default_api_url
    end
  | None => default_api_url
  end.

Definition tz_request (config : option Config) : Request :=
  {| req_method := js "GET"; req_url := api_url config;
     req_auth := []; req_body := NoBody |}.

Definition isSameHour (c : Calendar) (now cacheTime : Z) : bool :=
  ((getHours c now =? getHours c cacheTime)
   && (getDate c now =? getDate c cacheTime)
   && (getMonth c now =? getMonth c cacheTime)
   && (getFullYear c now =? getFullYear c cacheTime))%Z.

Definition isWithin30Minutes (now cacheTime : Z) : bool :=
  (now - cacheTime <? 30 * 60 * 1000)%Z.

Definition cache_valid (env : Env) (f : CacheFile) : bool :=
  isWithin30Minutes (now env) (mtime f)
  && isSameHour (cal env) (now env) (mtime f).

(** The part after the cache check. *)
Definition fetch_fresh (env : Env) (config : option Config) : M jsval :=
  response <- fetch (api env) (tz_request config) ;;
  if negb (ok response) then
    throw (js "HTTP error! status: " ++ of_Z (status response))
  else
    data <- lift (JSON_parse env (body response)) ;;
    set_fs (Dir (Some {| mtime := write_time env;
                         content := JSON_stringify env data |})) ;;;
    ret data.

Definition fetchTzOnline (env : Env) (config : option Config) : M jsval :=
  dir <- get_fs ;;
  (match dir with
   | NoDir => set_fs (Dir None)
   | Dir _ => ret tt
   end) ;;;
  dir <- get_fs ;;
  match dir with
  | Dir (Some cacheFile) =>
    if cache_valid env cacheFile
    then lift (JSON_parse env (content cacheFile))
    else fetch_fresh env config
  | _ => fetch_fresh env config
  end.

(** [getTzInfo]: fetch, then format; errors are rethrown. *)
Definition getTzInfo (env : Env) (areas : gmap Z AreaInfo)
    (config : option Config) : M str :=
  try_catch
    (data <- fetchTzOnline env config ;;
     lift (processTzOnlineData areas data))
    (fun message => throw message).

(** The action of the [d2rtz] command (index.ts): the status string, or
    the failure message. *)
Definition d2rtz_action (env : Env) (areas : gmap Z AreaInfo)
    (config : option Config) : M str :=
  try_catch
    (getTzInfo env areas config)
    (fun message => ret (js "获取TZ信息失败: " ++ message)).

(** A [Date] for a process running in UTC (proleptic Gregorian civil
    date from the day number). *)
Definition utc_civil (ms : Z) : Z * Z * Z :=
  (let z := ms / 86400000 + 719468 in
   let era := z / 146097 in
   let doe := z - era * 146097 in
   let yoe := (doe - doe / 1460 + doe / 36524 - doe / 146096) / 365 in
   let doy := doe - (365 * yoe + yoe / 4 - yoe / 100) in
   let mp := (5 * doy + 2) / 153 in
   let d := doy - (153 * mp + 2) / 5 + 1 in
   let m := if mp <? 10 then mp + 3 else mp - 9 in
   let y := yoe + era * 400 + (if m <=? 2 then 1 else 0) in
   (y, m, d))%Z.

Definition utc : Calendar :=
  {| getHours := fun ms => ((ms / 3600000) mod 24)%Z;
     getDate := fun ms => snd (utc_civil ms);
     getMonth := fun ms => (snd (fst (utc_civil ms)) - 1)%Z;
     getFullYear := fun ms => fst (fst (utc_civil ms)) |}.

End Tz.

(** ** index.ts: OCR and AI calls, command handlers *)

Module Bot.
Import JsStr Eff Ocr.

Record Config := {
  apiUrl : option str;
  ocrApiUrl : str;
  ocrApiKey : str;
  aiApiUrl : str;
  aiApiKey : str;
  aiModel : str;
  mockMode : bool;
  testMode : bool
}.

(** A value where the code expects a string.  What a server sends as the
    content of a message need not be one.  Of a value of another kind
    ([undefined], [null], a number, a boolean, an array, an object) the
    code observes whether it is truthy and how a template literal renders
    it; such a value has no [replace] method. *)
Inductive jsvalue :=
| VStr (s : str)
| VUndefined
| VNull
| VOther (truthiness : bool) (shown : str).

Definition is_truthy (v : jsvalue) : bool :=
  match v with
  | VStr [] => false
  | VStr (_ :: _) => true
  | VUndefined | VNull => false
  | VOther truthiness _ => truthiness
  end.

(** The value inside a template literal. *)
Definition show (v : jsvalue) : str :=
  match v with
  | VStr s => s
  | VUndefined => js "undefined"
  | VNull => js "null"
  | VOther _ shown => shown
  end.

(** The surroundings: the chat-completion endpoints and the two exports
    of the prompts module (not part of the sources at hand).  For the text
    of a response body, [read_content] is what [await response.json()]
    followed by [result.choices?.[0]?.message?.content] evaluates to
    ([Throw] when the body is not JSON or the chain hits [null];
    [VUndefined] when the chain ends in [undefined]; otherwise the content,
    of whatever kind), and [show_result] is [JSON.stringify(result)] as
    used in the log.  The code writes that log line between the two
    steps, so a body that is the JSON [null] is logged before the chain
    throws; here that one line is left out. *)
Record Env := {
  net : list event -> Request -> FetchResult;
  system_prompt : str;
  itemAnalysisPrompt : str -> str;
  read_content : str -> outcome jsvalue;
  show_result : str -> str
}.

(** A field is [None] when the object literal does not have it. *)
Record OcrResult := {
  ocr_success : bool; ocr_text : option jsvalue; ocr_error : option str
}.

Record AnalysisResult := {
  success : bool; analysis : option jsvalue; error : option str
}.

Definition mock_ocr_text : str :=
  js "暗黑破坏神装备信息：\n力量 +15\n敏捷 +10\n最大生命值 +20\n防御 +50\n等级需求 25\n稀有度：魔法物品".

Definition mock_analysis : str :=
  js "这是一件中级魔法装备，属性较为普通。力量和敏捷的加成对近战职业有一定帮助，但整体属性并不突出。建议作为过渡装备使用，不建议长期保留。".

(** [content || fallback]: a truthy content is kept, of whatever kind. *)
Definition or_else (content : jsvalue) (fallback : str) : jsvalue :=
  if is_truthy content then content else VStr fallback.

(** The [TypeError] of [ocrText.replace(...)] on a value that is not a
    string. *)
Definition no_replace (v : jsvalue) : str :=
  match v with
  | VUndefined => js "Cannot read properties of undefined (reading 'replace')"
  | VNull => js "Cannot read properties of null (reading 'replace')"
  | _ => js "ocrText.replace is not a function"
  end.

(** Reading a field of a result: [undefined] when it is not there. *)
Definition field (f : option jsvalue) : jsvalue :=
  match f with
  | Some v => v
  | None => VUndefined
  end.

Definition bearer (key : str) : str := js "Bearer " ++ key.

Definition ocr_request (config : Config) (imageUrl : str) : Request :=
  {| req_method := js "POST"; req_url := ocrApiUrl config;
     req_auth := bearer (ocrApiKey config);
     req_body := OcrBody (js "qwen-vl-ocr-2025-08-28") imageUrl
                         (js "请仅输出图像中的文本内容。") |}.

Definition recognizeImage (env : Env) (config : Config) (imageUrl : str)
  : M OcrResult :=
  emit (Log (js "开始OCR识别图片: " ++ imageUrl)) ;;;
  if mockMode config then
    emit (Log (js "使用Mock模式进行OCR识别")) ;;;
    emit (Sleep 1000) ;;;
    ret {| ocr_success := true; ocr_text := Some (VStr mock_ocr_text);
           ocr_error := None |}
  else
    try_catch
      (response <- fetch (net env) (ocr_request config imageUrl) ;;
       if negb (ok response) then
         ret {| ocr_success := false; ocr_text := None;
                ocr_error := Some (js "OCR请求失败: "
                                   ++ of_Z (status response) ++ js " "
                                   ++ statusText response) |}
       else
         result <- lift (read_content env (body response)) ;;
         emit (Log (js "OCR识别结果: " ++ show_result env (body response))) ;;;
         let ocrText := or_else result (js "无法提取OCR文本") in
         ret {| ocr_success := true; ocr_text := Some ocrText;
                ocr_error := None |})
      (fun message =>
         ret {| ocr_success := false; ocr_text := None;
                ocr_error := Some (js "OCR识别出错: " ++ message) |}).

Definition ai_request (env : Env) (config : Config) (prompt : str)
  : Request :=
  {| req_method := js "POST"; req_url := aiApiUrl config;
     req_auth := bearer (aiApiKey config);
     req_body := ChatBody (aiModel config) (system_prompt env) prompt |}.

(** [preprocessOcrText(ocrText)] stands before the [try]: on a value that
    is not a string its first [replace] throws, and nothing catches it. *)
Definition analyzeItem (env : Env) (config : Config) (ocrText : jsvalue)
  : M AnalysisResult :=
  emit (Log (js "开始AI分析装备: " ++ show ocrText)) ;;;
  if mockMode config then
    emit (Log (js "使用Mock模式进行AI分析")) ;;;
    emit (Sleep 1500) ;;;
    ret {| success := true; analysis := Some (VStr mock_analysis);
           error := None |}
  else
    match ocrText with
    | VStr text =>
      let processedText := preprocessOcrText text in
      emit (Log (js "预处理后的OCR文本: " ++ processedText)) ;;;
      try_catch
        (let prompt := itemAnalysisPrompt env processedText in
         response <- fetch (net env) (ai_request env config prompt) ;;
         if negb (ok response) then
           ret {| success := false; analysis := None;
                  error := Some (js "AI分析请求失败: "
                                 ++ of_Z (status response) ++ js " "
                                 ++ statusText response) |}
         else
           result <- lift (read_content env (body response)) ;;
           emit (Log (js "AI分析结果: "
                      ++ show_result env (body response))) ;;;
           let analysis := or_else result (js "无法获取AI分析结果") in
           ret {| success := true; analysis := Some analysis;
                  error := None |})
        (fun message =>
           ret {| success := false; analysis := None;
                  error := Some (js "AI分析出错: " ++ message) |})
    | _ => throw (no_replace ocrText)
    end.

(** A template literal renders a missing field as ["undefined"]. *)
Definition render (field : option str) : str :=
  match field with
  | Some s => s
  | None => js "undefined"
  end.

(** The tail of both branches of the handler: report the analysis
    ([None] is [undefined]). *)
Definition report (analysisResult : AnalysisResult) : option jsvalue :=
  if negb (success analysisResult)
  then Some (VStr (js "装备价值分析失败: " ++ render (error analysisResult)))
  else analysis analysisResult.

(** The action of the appraisal command.  [image] is the text argument
    ([None] when absent or empty); [src] is the image reference found in
    the message, the quoted message or the follow-up message, [None] when
    there is none.  The reply is what the action returns: a string, or
    whatever [analysisResult.analysis] holds. *)
Definition appraise (env : Env) (config : Config)
    (image : option str) (src : option str) : M (option jsvalue) :=
  if testMode config then
    match image with
    | None =>
      ret (Some (VStr (js "测试模式下，请直接输入OCR识别后的文本内容。")))
    | Some text =>
      emit (Log (js "测试模式：直接使用输入文本进行AI分析")) ;;;
      analysisResult <- analyzeItem env config (VStr text) ;;
      ret (report analysisResult)
    end
  else
    match src with
    | None => ret (Some (VStr (js "未检测到有效的装备截图，请重新发送。")))
    | Some src =>
      emit (Log (js "用户发送的装备截图链接: " ++ src)) ;;;
      ocrResult <- recognizeImage env config src ;;
      if negb (ocr_success ocrResult) then
        ret (Some (VStr (js "装备属性识别失败: "
                         ++ render (ocr_error ocrResult))))
      else
        analysisResult <-
          analyzeItem env config (field (ocr_text ocrResult)) ;;
        ret (report analysisResult)
    end.

End Bot.

(** ** fetch.ts: posting the status to the group ([sendGroupMessage],
    [main]; console output is left out) *)

Module Relay.
Import JsStr Eff Tz.

(** The POST sent to the messaging relay: its URL, its [Authorization]
    header, and the [group_id] and the text of the one message of its JSON
    body. *)
Record GroupPost := {
  post_url : str;
  post_auth : str;
  post_group_id : str;
  post_text : str
}.

(** The world of [fetchTzOnline] together with the posts made so far. *)
Record RelayWorld := { base : World; posts : list GroupPost }.

Definition R (A : Type) : Type := RelayWorld -> outcome A * RelayWorld.

Definition rbind {A B} (m : R A) (f : A -> R B) : R B :=
  fun w =>
    match m w with
    | (Return a, w') => f a w'
    | (Throw e, w') => (Throw e, w')
    end.

Definition rret {A} (a : A) : R A := fun w => (Return a, w).

(** A computation on the cache and the rotation API, run in this world. *)
Definition in_base {A} (m : M A) : R A :=
  fun w =>
    match m (base w) with
    | (o, b) => (o, {| base := b; posts := posts w |})
    end.

(** [catch (error) { ...; throw error }] *)
Definition rethrow {A} (m : R A) : R A :=
  fun w =>
    match m w with
    | (Return a, w') => (Return a, w')
    | (Throw e, w') => (Throw e, w')
    end.

(** [config?.field || fallback] *)
Definition setting (config : option Config) (field : Config -> option str)
    (fallback : str) : str :=
  match config with
  | Some c =>
    match field c with
    | Some (u :: s) => u :: s
    | _ => fallback
    end
  | None => fallback
  end.

Definition group_post (text : str) (config : option Config) : GroupPost :=
  {| post_url := setting config sendMessageUrl
                   (js "http://example.message.com/send_group_msg");
     post_auth := js "Bearer " ++ setting config authToken (js "abc");
     post_group_id := setting config groupId (js "1026709881");
     post_text := text |}.

(** [fetch(...).then(response => response.text())]: the text of whatever
    response arrives; a rejection is thrown again.  [relay] answers for the
    whole chain: [NetworkError] stands for a rejection of [fetch] or of the
    reading of the body. *)
Definition sendGroupMessage
    (relay : list GroupPost -> GroupPost -> FetchResult)
    (text : str) (config : option Config) : R str :=
  fun w =>
    let post := group_post text config in
    let w' := {| base := base w; posts := posts w ++ [post] |} in
    match relay (posts w) post with
    | NetworkError m => (Throw m, w')
    | Responded r => (Return (body r), w')
    end.

Definition main
    (relay : list GroupPost -> GroupPost -> FetchResult)
    (env : Env) (areas : gmap Z AreaInfo) (config : option Config) : R str :=
  rethrow
    (rbind (in_base (fetchTzOnline env config)) (fun data =>
     rbind (in_base (lift (processTzOnlineData areas data))) (fun message =>
     rbind (sendGroupMessage relay message config) (fun _ =>
     rret message)))).

End Relay.

(** * Vocabulary of the statements and proofs *)

(** ** Matching, deletion and the invariants of the cleaned text *)

Section OcrVocabulary.
Import JsStr Regex Ocr.

(** A regex is stable on [s] when it matches at no position of [s]. *)
Definition stable (r : re) (s : str) : Prop :=
  forall t, suffix t s -> match_at r t = None.

(** What [Chr (ch c)] followed by the end of the pattern does. *)
Definition expect (c : char) (s : str) : option str :=
  match s with
  | x :: t => if x =? c then Some t else None
  | [] => None
  end.

(** [del Q s s']: the text [s'] is [s] with some segments [d] removed,
    each with [Q d rest] where [rest] is the output that follows it. *)
Inductive del (Q : str -> str -> Prop) : str -> str -> Prop :=
| del_nil : del Q [] []
| del_keep c s s' : del Q s s' -> del Q (c :: s) (c :: s')
| del_cut d s s' : Q d s' -> del Q s s' -> del Q (d ++ s) s'.

(** The removed segment starts with a unit of class [C]. *)
Definition head_in (C : char -> bool) (d s' : str) : Prop :=
  match d with
  | c :: _ => C c = true
  | [] => False
  end.

(** The removed segment starts with the unit that follows it in the
    output, or nothing follows it. *)
Definition same_next (d s' : str) : Prop :=
  match d, s' with
  | c :: _, x :: _ => x = c
  | _ :: _, [] => True
  | [], _ => False
  end.

(** Segments consumed by a match of [r]. *)
Definition matched (r : re) (d s' : str) : Prop :=
  d <> [] /\
  exists rest, match_at r (d ++ rest) = Some rest /\ s' = replaceAll r [] rest.

(** A regex whose matches all start with a unit of class [C]. *)
Definition starts_in (r : re) (C : char -> bool) : Prop :=
  match_at r [] = None /\
  forall c u, C c = false -> match_at r (c :: u) = None.

(** Every match of [r] consumes at least one unit. *)
Definition consuming (r : re) : Prop :=
  match_at r [] = None /\
  forall s rest, match_at r s = Some rest -> (length rest < length s)%nat.

(** No match of the bracket pattern at [[ :: u]. *)
Definition no_bracket (u : str) : Prop :=
  starts_with [69; 84; 72; 93] u = true \/ 93 ∉ u.

(** Units that do not occur in ["ETH]"]. *)
Definition outside_eth (c : char) : bool :=
  negb ((c =? 69) || (c =? 84) || (c =? 72) || (c =? 93)).

(** No match of the note pattern at [缀 :: u]. *)
Definition no_colon (u : str) : Prop :=
  match u with
  | x :: _ => is_colon x = false
  | [] => True
  end.

(** No match of the blank-line pattern at [\n :: u]. *)
Definition no_blank (u : str) : Prop := star is_ws (expect 10) u = None.

(** The blank-line substitution removes a segment that starts with a line
    feed and is followed by one. *)
Definition blank_cut (d x : str) : Prop :=
  head_in (ch 10) d x /\ same_next d x.

(** The text does not start with white space. *)
Definition head_ok (s : str) : Prop :=
  match s with
  | c :: _ => is_ws c = false
  | [] => True
  end.

(** A text with no white space at either end. *)
Definition trimmed (s : str) : Prop := head_ok s /\ head_ok (rev s).

(** What [trim] removes at the end. *)
Definition tail_cut (d x : str) : Prop := head_in is_ws d x /\ x = [].

(** What the cleaning chain establishes: none of the patterns matches
    anywhere (the numeric tag follows from the bracket pattern, the prefix
    note from the suffix note) and the text is trimmed. *)
Record cleaned (c : str) : Prop := {
  cl_bracket : stable re_bracket c;
  cl_corner : stable re_corner c;
  cl_note : stable re_suffix_note c;
  cl_blank : stable re_blank_lines c;
  cl_trimmed : trimmed c
}.

(** Deletions that keep all four patterns without a match. *)
Definition gentle (d x : str) : Prop :=
  head_in outside_eth d x /\
  (no_colon x \/ same_next d x) /\
  (head_in (ch 10) d x \/ x = []).

(** A line without a level-requirement marker. *)
Definition plain (l : str) : Prop := is_level_line l = false.

(** Dropping whole lines in the middle of the text. *)
Definition line_cut (d x : str) : Prop :=
  head_in (ch 10) d x /\ head_in (ch 10) x x.

(** A line with something on it: a unit that is not white space. *)
Definition solid (l : str) : Prop := exists c, c ∈ l /\ is_ws c = false.

End OcrVocabulary.

(** ** Rotation payloads and the cache *)

Section TzVocabulary.
Import JsStr Eff Tz.

(** The comparator [(a, b) => a.time - b.time] and the order it sorts
    into. *)
Definition by_time (a b : RotationEntry) : Z := (time a - time b)%Z.

Definition time_le (a b : RotationEntry) : Prop := (time a <= time b)%Z.

(** The area table and payload of the worked example. *)
Definition example_areas : gmap Z AreaInfo :=
  build_areas [ {| id := 1; name_zh_cn := js "A"; tier_loot := js "X" |};
                {| id := 2; name_zh_cn := js "B"; tier_loot := js "Y" |} ].

Definition example_payload : jsval :=
  JObj [ (js "data", JArr [ {| zone := 1; time := 200 |};
                            {| zone := 2; time := 100 |} ]) ].

(** Two instants with the same hour, day, month and year. *)
Definition same_calendar_hour (c : Calendar) (T T' : Z) : Prop :=
  getHours c T' = getHours c T /\ getDate c T' = getDate c T /\
  getMonth c T' = getMonth c T /\ getFullYear c T' = getFullYear c T.

(** The cache file written at [T] may be reused now. *)
Definition reusable (env : Env) (T : Z) : Prop :=
  same_calendar_hour (cal env) T (now env) /\ (now env - T < 30 * 60 * 1000)%Z.

(** A process in UTC, a cache file written on 2023-11-14 at 22:13:20. *)
Definition example_env (clock : Z) : Env :=
  {| cal := utc; now := clock; write_time := (clock + 250)%Z;
     api := fun _ _ =>
       Responded {| status := 200; statusText := js "OK";
                    body := js "{}" |};
     JSON_parse := fun text =>
       if bool_decide (text = js "{}") then Return (JObj [])
       else Throw (js "Unexpected token");
     JSON_stringify := fun _ => js "{}" |}.

(** A server that answers with the empty object written with a space
    inside, half an hour after the cache file of the examples was written.
    [JSON.parse] reads both spellings as the empty object, and
    [JSON.stringify(_, null, 2)] writes the empty object, the only value
    serialised in such a run, as the two characters of its canonical
    form. *)
Definition spaced_env : Env :=
  {| cal := utc; now := 1700003000000; write_time := 1700003000250;
     api := fun _ _ =>
       Responded {| status := 200; statusText := js "OK";
                    body := js "{ }" |};
     JSON_parse := fun text =>
       if bool_decide (text = js "{ }") || bool_decide (text = js "{}")
       then Return (JObj [])
       else Throw (js "Unexpected token");
     JSON_stringify := fun _ => js "{}" |}.

(** The entry [areas[area.id]] receives. *)
Definition info_of (area : RawArea) : AreaInfo :=
  {| name := name_zh_cn area; tier := tier_loot area |}.

(** The cache after the directory has been made sure of. *)
Definition ensure_dir (f : CacheFs) : CacheFs :=
  match f with
  | NoDir => Dir None
  | Dir file => Dir file
  end.

(** The cache file, if there is one. *)
Definition cache_file (f : CacheFs) : option CacheFile :=
  match f with
  | NoDir => None
  | Dir file => file
  end.

End TzVocabulary.

(** ** OCR and AI calls *)

Section BotVocabulary.
Import JsStr Eff Ocr Bot.

(** A call that fails: [fetch] rejects, or the status is not 2xx. *)
Definition failed (res : FetchResult) : Prop :=
  match res with
  | NetworkError _ => True
  | Responded r => ok r = false
  end.

(** The world after some more events. *)
Definition after (w : World) (events : list event) : World :=
  {| fs := fs w; trace := trace w ++ events |}.

(** [{success: false, error: e}] *)
Definition ocr_failure (e : str) : OcrResult :=
  {| ocr_success := false; ocr_text := None; ocr_error := Some e |}.

Definition ai_failure (e : str) : AnalysisResult :=
  {| success := false; analysis := None; error := Some e |}.

(** The log lines written before each call. *)
Definition ocr_start (imageUrl : str) : event :=
  Log (js "开始OCR识别图片: " ++ imageUrl).

Definition ai_start (ocrText : str) : list event :=
  [Log (js "开始AI分析装备: " ++ ocrText);
   Log (js "预处理后的OCR文本: " ++ preprocessOcrText ocrText)].

Definition ai_call (env : Env) (config : Config) (ocrText : str) : Request :=
  ai_request env config (itemAnalysisPrompt env (preprocessOcrText ocrText)).

Definition link (src : str) : event :=
  Log (js "用户发送的装备截图链接: " ++ src).

Definition test_note : event :=
  Log (js "测试模式：直接使用输入文本进行AI分析").

Definition ocr_fallback : str := js "无法提取OCR文本".

(** Two servers: one unreachable, one answering 500 with a body that is
    not JSON. *)
Definition offline_env : Env :=
  {| net := fun _ _ => NetworkError (js "fetch failed");
     system_prompt := js "system";
     itemAnalysisPrompt := fun text => js "item: " ++ text;
     read_content := fun _ => Return VUndefined;
     show_result := fun text => text |}.

Definition failing_env : Env :=
  {| net := fun _ _ =>
       Responded {| status := 500; statusText := js "Internal Server Error";
                    body := js "oops" |};
     system_prompt := js "system";
     itemAnalysisPrompt := fun text => js "item: " ++ text;
     read_content := fun _ => Throw (js "Unexpected token o in JSON");
     show_result := fun text => text |}.

Definition example_config (mock test : bool) : Config :=
  {| apiUrl := None;
     ocrApiUrl := js "https://ocr.example/v1";
     ocrApiKey := js "k1";
     aiApiUrl := js "https://ai.example/v1";
     aiApiKey := js "k2";
     aiModel := js "qwen-plus";
     mockMode := mock;
     testMode := test |}.

Definition ai_fallback : str := js "无法获取AI分析结果".

(** The requests among some events, in order. *)
Fixpoint requests_of (events : list event) : list Request :=
  match events with
  | [] => []
  | Fetch req :: rest => req :: requests_of rest
  | _ :: rest => requests_of rest
  end.

(** A well-formed OCR result: success with a truthy text (a non-empty
    string, or a truthy value of another kind) and no error, or failure
    with a non-empty error and no text. *)
Definition ocr_shape (r : OcrResult) : Prop :=
  (ocr_success r = true /\ ocr_error r = None /\
   exists t, ocr_text r = Some t /\ is_truthy t = true)
  \/ (ocr_success r = false /\ ocr_text r = None /\
      exists e, ocr_error r = Some e /\ e <> []).

Definition ai_shape (r : AnalysisResult) : Prop :=
  (success r = true /\ error r = None /\
   exists t, analysis r = Some t /\ is_truthy t = true)
  \/ (success r = false /\ analysis r = None /\
      exists e, error r = Some e /\ e <> []).

(** A value that is not a string. *)
Definition not_string (v : jsvalue) : Prop :=
  match v with
  | VStr _ => False
  | _ => True
  end.

(** The one situation in which the appraisal command goes on to
    [analyzeItem] with a value that is not a string: mock mode and test
    mode are off, there is an image, and the OCR server answers 2xx with a
    content that is truthy and not a string. *)
Definition odd_content (env : Env) (config : Config) (src : option str)
    (w : World) (content : jsvalue) : Prop :=
  mockMode config = false /\ testMode config = false
  /\ exists s r,
       src = Some s
       /\ net env (trace w ++ [link s; ocr_start s]) (ocr_request config s)
          = Responded r
       /\ ok r = true
       /\ read_content env (body r) = Return content
       /\ is_truthy content = true
       /\ not_string content.

(** A server whose answers carry a list of parts as content, rendered
    ["[object Object]"] by a template literal. *)
Definition parts_env : Env :=
  {| net := fun _ _ =>
       Responded {| status := 200; statusText := js "OK";
                    body := js "{...}" |};
     system_prompt := js "system";
     itemAnalysisPrompt := fun text => js "item: " ++ text;
     read_content := fun _ => Return (VOther true (js "[object Object]"));
     show_result := fun text => text |}.

(** The requests one run of the appraisal command may issue: none in
    mock mode; in test mode the AI request for the given text; otherwise
    the OCR request for the image, followed by one AI request when the
    OCR call succeeded. *)
Definition allowed_requests (env : Env) (config : Config)
    (image src : option str) (reqs : list Request) : Prop :=
  if mockMode config then reqs = []
  else if testMode config then
    match image with
    | Some text => reqs = [ai_call env config text]
    | None => reqs = []
    end
  else
    match src with
    | Some s =>
      reqs = [ocr_request config s]
      \/ exists text, reqs = [ocr_request config s; ai_call env config text]
    | None => reqs = []
    end.

End BotVocabulary.

(** * Properties *)

(** ** The model on small inputs *)

Section Checks.
Import JsStr Regex Ocr Eff Tz.

Example js_units :
  js "缀：:前『』[]\n" = [32512; 65306; 58; 21069; 12302; 12303; 91; 93; 10].
Proof. reflexivity. Qed.

Example markers_units :
  marker1 = [38656; 35201; 31561; 32026]
  /\ marker2 = [31561; 32423; 38656; 27714]
  /\ js "需要等级" = [38656; 35201; 31561; 32423].
Proof. repeat split. Qed.

Example bracket_replace :
  replaceAll re_bracket [] (js "a[x]b[ETH]c[[y]z]") = js "ab[ETH]cz]".
Proof. vm_compute. reflexivity. Qed.

Example corner_replace :
  replaceAll re_corner [] (js "a『x\ny』b『c") = js "ab『c".
Proof. vm_compute. reflexivity. Qed.

Example note_replace :
  replaceAll re_suffix_note [] (js "前缀:锋利\n后缀：完美 x\nq") = js "前\n后\nq".
Proof. vm_compute. reflexivity. Qed.

Example blank_replace :
  replaceAll re_blank_lines (js "\n") (js "a\n \n\n b\n\nc\n") = js "a\n b\nc\n".
Proof. vm_compute. reflexivity. Qed.

Example trim_both : trim (js " \n a b \n") = js "a b".
Proof. vm_compute. reflexivity. Qed.

Example split_lines : split 10 (js "a\n\nb\n") = [js "a"; []; js "b"; []].
Proof. vm_compute. reflexivity. Qed.

Example slice_negative : slice [1; 2; 3; 4; 5] (-3) (-1) = [3; 4].
Proof. reflexivity. Qed.

Example sort_is_stable :
  sort_by (fun a b => time a - time b)%Z
    [ {| zone := 1; time := 5 |}; {| zone := 2; time := 3 |};
      {| zone := 3; time := 5 |}; {| zone := 4; time := 3 |} ]
  = [ {| zone := 2; time := 3 |}; {| zone := 4; time := 3 |};
      {| zone := 1; time := 5 |}; {| zone := 3; time := 5 |} ].
Proof. reflexivity. Qed.

Example utc_fields :
  (getFullYear utc 1700000000000, getMonth utc 1700000000000,
   getDate utc 1700000000000, getHours utc 1700000000000)
  = (2023, 10, 14, 22)%Z.
Proof. reflexivity. Qed.

Example areas_last_wins :
  build_areas [ {| id := 1; name_zh_cn := js "A"; tier_loot := js "X" |};
                {| id := 1; name_zh_cn := js "B"; tier_loot := js "Y" |} ]
    !! 1%Z
  = Some {| name := js "B"; tier := js "Y" |}.
Proof. vm_compute. reflexivity. Qed.

End Checks.

Section BotChecks.
Import JsStr Eff Ocr Bot.

Example appraise_http_500 :
  fst (appraise failing_env (example_config false false) None
         (Some (js "http://img")) {| fs := NoDir; trace := [] |})
  = Return (Some (VStr (js "装备属性识别失败: OCR请求失败: 500 Internal Server Error"))).
Proof. vm_compute. reflexivity. Qed.

Example appraise_offline_test_mode :
  fst (appraise offline_env (example_config false true) (Some (js "力量 +15"))
         None {| fs := NoDir; trace := [] |})
  = Return (Some (VStr (js "装备价值分析失败: AI分析出错: fetch failed"))).
Proof. vm_compute. reflexivity. Qed.

Example appraise_mock :
  appraise offline_env (example_config true false) None
    (Some (js "http://img")) {| fs := NoDir; trace := [] |}
  = (Return (Some (VStr mock_analysis)),
     {| fs := NoDir;
        trace := [Log (js "用户发送的装备截图链接: http://img");
                  Log (js "开始OCR识别图片: http://img");
                  Log (js "使用Mock模式进行OCR识别"); Sleep 1000;
                  Log (js "开始AI分析装备: " ++ mock_ocr_text);
                  Log (js "使用Mock模式进行AI分析"); Sleep 1500] |}).
Proof. vm_compute. reflexivity. Qed.

Example appraise_odd_content :
  appraise parts_env (example_config false false) None
    (Some (js "http://img")) {| fs := NoDir; trace := [] |}
  = (Throw (js "ocrText.replace is not a function"),
     {| fs := NoDir;
        trace := [Log (js "用户发送的装备截图链接: http://img");
                  Log (js "开始OCR识别图片: http://img");
                  Fetch (ocr_request (example_config false false)
                           (js "http://img"));
                  Log (js "OCR识别结果: {...}");
                  Log (js "开始AI分析装备: [object Object]")] |}).
Proof. vm_compute. reflexivity. Qed.

Example appraise_no_image :
  fst (appraise offline_env (example_config false false) None None
         {| fs := NoDir; trace := [] |})
  = Return (Some (VStr (js "未检测到有效的装备截图，请重新发送。"))).
Proof. vm_compute. reflexivity. Qed.

End BotChecks.

(** ** The matcher *)

Section RegexFacts.
Import JsStr Regex.

Lemma suffix_cons_case {A} (t s : list A) c :
  suffix t (c :: s) -> t = c :: s \/ suffix t s.
Proof.
  intros [[|a k] Hk]; simpl in Hk.
  - by left.
  - right. injection Hk as _ ->. by exists k.
Qed.

Lemma star_suffix p k s x :
  star p k s = Some x -> exists t, suffix t s /\ k t = Some x.
Proof.
  induction s as [|c s IH]; simpl.
  - intros H. exists []. split; [reflexivity | exact H].
  - destruct (p c).
    + destruct (star p k s) as [r|] eqn:E.
      * intros [= <-]. destruct (IH eq_refl) as (t & Ht & Hk).
        exists t. split; [by apply suffix_cons_r | exact Hk].
      * intros H. exists (c :: s). split; [reflexivity | exact H].
    + intros H. exists (c :: s). split; [reflexivity | exact H].
Qed.

Lemma exec_suffix r : forall s k x,
  exec r s k = Some x -> exists t, suffix t s /\ k t = Some x.
Proof.
  induction r as [|p|a IHa b IHb|p|a IHa]; simpl; intros s k x H.
  - exists s. split; [reflexivity | exact H].
  - destruct s as [|c s]; [discriminate|].
    destruct (p c); [|discriminate].
    exists s. split; [by apply suffix_cons_r | exact H].
  - destruct (IHa _ _ _ H) as (t & Ht & Hk).
    destruct (IHb _ _ _ Hk) as (u & Hu & Hk').
    exists u. split; [by etrans | exact Hk'].
  - by apply (star_suffix p).
  - destruct (exec a s Some); [discriminate|].
    exists s. split; [reflexivity | exact H].
Qed.

Lemma match_at_suffix r s rest : match_at r s = Some rest -> suffix rest s.
Proof.
  intros H. destruct (exec_suffix _ _ _ _ H) as (t & Ht & [= ->]). exact Ht.
Qed.

Lemma replace_fuel_enough r rep : forall n m s,
  (length s < n)%nat -> (length s < m)%nat ->
  replace_fuel n r rep s = replace_fuel m r rep s.
Proof.
  induction n as [|n IH]; intros m s Hn Hm; [lia|].
  destruct m as [|m]; [lia|]. simpl.
  destruct s as [|c s]; [reflexivity|]. simpl in Hn, Hm.
  destruct (match_at r (c :: s)) as [rest|] eqn:E.
  - destruct (Nat.ltb_spec (length rest) (length (c :: s))) as [Hlt|Hge].
    + simpl in Hlt. f_equal. apply IH; lia.
    + do 2 f_equal. apply IH; lia.
  - f_equal. apply IH; lia.
Qed.

Lemma replaceAll_nil r rep :
  replaceAll r rep [] = match match_at r [] with Some _ => rep | None => [] end.
Proof. reflexivity. Qed.

Lemma replaceAll_cons r rep c s :
  replaceAll r rep (c :: s) =
  match match_at r (c :: s) with
  | Some rest =>
    if (length rest <? length (c :: s))%nat
    then rep ++ replaceAll r rep rest
    else rep ++ c :: replaceAll r rep s
  | None => c :: replaceAll r rep s
  end.
Proof.
  unfold replaceAll at 1. cbn [replace_fuel].
  destruct (match_at r (c :: s)) as [rest|] eqn:E.
  - destruct (Nat.ltb_spec (length rest) (length (c :: s))) as [Hlt|Hge].
    + f_equal. apply replace_fuel_enough; simpl in *; lia.
    + reflexivity.
  - reflexivity.
Qed.

Lemma stable_cons r c s :
  stable r (c :: s) <-> match_at r (c :: s) = None /\ stable r s.
Proof.
  split.
  - intros H. split; [by apply H|].
    intros t Ht. apply H. by apply suffix_cons_r.
  - intros [H1 H2] t Ht. apply suffix_cons_case in Ht as [->|Ht]; auto.
Qed.

Lemma stable_suffix r s t : suffix t s -> stable r s -> stable r t.
Proof. intros Hts H u Hu. apply H. by etrans. Qed.

Lemma stable_replaceAll r rep s : stable r s -> replaceAll r rep s = s.
Proof.
  induction s as [|c s IH]; intros H.
  - rewrite replaceAll_nil. by rewrite (H []).
  - apply stable_cons in H as [H1 H2].
    rewrite replaceAll_cons, H1. f_equal. by apply IH.
Qed.

End RegexFacts.

(** ** Closed forms for greedy repetition and literals *)

Section StarFacts.
Import JsStr Regex.

Lemma star_stop p k s :
  (forall c t, p c = true -> k (c :: t) = None) ->
  star p k s = k (drop_while p s).
Proof.
  intros Hk. induction s as [|c s IH]; simpl; [reflexivity|].
  destruct (p c) eqn:E; [|reflexivity].
  rewrite IH. destruct (k (drop_while p s)); [reflexivity|].
  by apply Hk.
Qed.

Lemma star_greedy p s : star p Some s = Some (drop_while p s).
Proof.
  induction s as [|c s IH]; simpl; [reflexivity|].
  destruct (p c); [by rewrite IH | reflexivity].
Qed.

Lemma exec_Lit l : forall s k,
  exec (Lit l) s k = if starts_with l s then k (drop (length l) s) else None.
Proof.
  induction l as [|a l IH]; intros s k; simpl; [reflexivity|].
  destruct s as [|b s]; [reflexivity|]. unfold ch.
  rewrite (N.eqb_sym b a). destruct (a =? b); simpl; [apply IH | reflexivity].
Qed.

Lemma expect_not_ch c x t : not_ch c x = true -> expect c (x :: t) = None.
Proof. unfold not_ch, expect. by destruct (x =? c). Qed.

Lemma expect_drop_none c u :
  expect c (drop_while (not_ch c) u) = None <-> c ∉ u.
Proof.
  induction u as [|x u IH]; simpl.
  - split; [intros _; apply not_elem_of_nil | reflexivity].
  - unfold not_ch at 1. destruct (N.eqb_spec x c) as [->|Hne]; simpl.
    + rewrite N.eqb_refl. split; [discriminate|].
      intros H. exfalso. apply H. left.
    + rewrite IH, not_elem_of_cons. intuition congruence.
Qed.

Lemma expect_drop_some c u rest :
  expect c (drop_while (not_ch c) u) = Some rest ->
  exists m, u = m ++ c :: rest /\ c ∉ m.
Proof.
  induction u as [|x u IH]; simpl; [discriminate|].
  unfold not_ch at 1. destruct (N.eqb_spec x c) as [->|Hne]; simpl.
  - rewrite N.eqb_refl. intros [= ->]. exists []. split; [reflexivity|].
    apply not_elem_of_nil.
  - intros H. destruct (IH H) as (m & -> & Hm). exists (x :: m).
    split; [reflexivity|]. rewrite not_elem_of_cons. intuition congruence.
Qed.

End StarFacts.

(** ** Deleting segments

    Every step after the first substitution removes segments of the
    text. *)

Section Deletion.
Import JsStr Regex.

Lemma del_refl Q s : del Q s s.
Proof. induction s; constructor; auto. Qed.

Lemma del_mono (Q Q' : str -> str -> Prop) s s' :
  (forall d x, Q d x -> Q' d x) -> del Q s s' -> del Q' s s'.
Proof. intros HQ. induction 1; constructor; auto. Qed.

Lemma del_sublist Q s s' : del Q s s' -> sublist s' s.
Proof.
  induction 1.
  - constructor.
  - by constructor.
  - by apply sublist_inserts_l.
Qed.

Lemma del_app_keep Q a s s' : del Q s s' -> del Q (a ++ s) (a ++ s').
Proof. intros H. induction a; simpl; [exact H | by constructor]. Qed.

Lemma del_not_elem Q c s s' : del Q s s' -> c ∉ s -> c ∉ s'.
Proof.
  intros H Hc Hin. apply Hc. eapply elem_of_sublist; [exact Hin|].
  by eapply del_sublist.
Qed.

(** A unit that cannot start a removed segment is kept. *)
Lemma del_cons_inv Q c s s' :
  (forall d x, Q d x -> exists a d', d = a :: d' /\ a <> c) ->
  del Q (c :: s) s' ->
  exists s'', s' = c :: s'' /\ del Q s s''.
Proof.
  intros HQ H. remember (c :: s) as cs eqn:E. revert E.
  destruct H as [|c0 s0 s0' H0|d s0 s0' Hd H0]; intros E.
  - discriminate.
  - injection E as -> ->. by exists s0'.
  - exfalso. destruct (HQ _ _ Hd) as (a & d' & -> & Hne).
    simpl in E. injection E as -> _. by apply Hne.
Qed.

End Deletion.

Section DeletionAndMatching.
Import JsStr Regex.

(** Substituting the empty string only removes matched segments. *)
Lemma replaceAll_del r s : del (matched r) s (replaceAll r [] s).
Proof.
  remember (length s) as n eqn:En. revert s En.
  induction n as [n IH] using lt_wf_ind. intros s ->.
  destruct s as [|c s].
  - rewrite replaceAll_nil. destruct (match_at r []); constructor.
  - rewrite replaceAll_cons.
    destruct (match_at r (c :: s)) as [rest|] eqn:E.
    + destruct (Nat.ltb_spec (length rest) (length (c :: s))) as [Hlt|Hge].
      * destruct (match_at_suffix _ _ _ E) as [d Hd]. simpl.
        rewrite Hd. apply del_cut.
        -- split.
           ++ intros ->. simpl in Hd. rewrite Hd in Hlt. lia.
           ++ exists rest. by rewrite <- Hd.
        -- by eapply IH.
      * simpl. apply del_keep. eapply IH; [|reflexivity]. simpl. lia.
    + apply del_keep. eapply IH; [|reflexivity]. simpl. lia.
Qed.

Lemma matched_head_in r C d s' :
  starts_in r C -> matched r d s' -> head_in C d s'.
Proof.
  intros [_ HC] [Hd (rest & E & _)]. destruct d as [|c d]; [done|]. simpl.
  destruct (C c) eqn:Ec; [reflexivity|].
  simpl in E. by rewrite HC in E.
Qed.

(** Stability is kept by deletions that keep "no match here". *)
Lemma stable_del r Q :
  (forall c s s', del Q s s' ->
     match_at r (c :: s) = None -> match_at r (c :: s') = None) ->
  forall s s', del Q s s' -> stable r s -> stable r s'.
Proof.
  intros HS s s' H. induction H as [|c s s' H IH|d s s' Hd H IH]; intros Hst.
  - exact Hst.
  - apply stable_cons in Hst as [H1 H2]. apply stable_cons. split.
    + by eapply HS.
    + by apply IH.
  - apply IH. eapply stable_suffix; [|exact Hst]. by apply suffix_app_r.
Qed.

Lemma consuming_Chr p r : consuming (Cat (Chr p) r).
Proof.
  split; [reflexivity|]. intros [|c s] rest; unfold match_at; simpl.
  - discriminate.
  - destruct (p c); [|discriminate]. intros H.
    apply exec_suffix in H as (t & [k Hk] & [= ->]).
    rewrite Hk, length_app. lia.
Qed.

(** A substitution by the empty string reaches a stable text as soon as
    its own deletions keep "no match here". *)
Lemma replaceAll_stable r :
  consuming r ->
  (forall c s s', del (matched r) s s' ->
     match_at r (c :: s) = None -> match_at r (c :: s') = None) ->
  forall s, stable r (replaceAll r [] s).
Proof.
  intros [Hnil Hcons] HS s. remember (length s) as n eqn:En. revert s En.
  induction n as [n IH] using lt_wf_ind. intros s ->.
  destruct s as [|c s].
  - rewrite replaceAll_nil, Hnil.
    intros t Ht. by apply suffix_nil_inv in Ht as ->.
  - rewrite replaceAll_cons.
    destruct (match_at r (c :: s)) as [rest|] eqn:E.
    + pose proof (Hcons _ _ E) as Hlt.
      apply Nat.ltb_lt in Hlt as Hb. rewrite Hb. simpl.
      by eapply IH.
    + apply stable_cons. split.
      * eapply HS; [apply replaceAll_del | exact E].
      * eapply IH; [|reflexivity]. simpl. lia.
Qed.

End DeletionAndMatching.

(** ** The six substitutions of [preprocessOcrText] *)

Section OcrRegexes.
Import JsStr Regex Ocr.

Lemma js_eth : js "ETH]" = [69; 84; 72; 93].
Proof. reflexivity. Qed.

Lemma js_nl : js "\n" = [10].
Proof. reflexivity. Qed.

Lemma starts_with_app p s : starts_with p s = true <-> exists t, s = p ++ t.
Proof.
  revert s. induction p as [|a p IH]; intros s; simpl.
  - split; [intros _; by exists s | reflexivity].
  - destruct s as [|b s].
    + split; [discriminate | intros [t Ht]; discriminate].
    + rewrite andb_true_iff, N.eqb_eq, IH. split.
      * intros [-> [t ->]]. by exists t.
      * intros [t [= -> ->]]. split; [reflexivity | by exists t].
Qed.

(** *** Bracketed annotations *)

Lemma bracket_cons c u :
  match_at re_bracket (c :: u) =
  if c =? 91 then
    if starts_with [69; 84; 72; 93] u then None
    else expect 93 (drop_while (not_ch 93) u)
  else None.
Proof.
  unfold match_at, re_bracket. cbn [Seq exec]. unfold ch at 1.
  destruct (c =? 91); [|reflexivity].
  rewrite exec_Lit, js_eth.
  destruct (starts_with [69; 84; 72; 93] u); [reflexivity|].
  rewrite star_stop; [reflexivity|].
  intros x t Hx. by apply (expect_not_ch 93).
Qed.

Lemma bracket_none u : match_at re_bracket (91 :: u) = None <-> no_bracket u.
Proof.
  rewrite bracket_cons. change (91 =? 91) with true. cbv iota.
  unfold no_bracket. destruct (starts_with [69; 84; 72; 93] u).
  - split; [by left | reflexivity].
  - rewrite expect_drop_none. split; [by right | by intros [?|?]].
Qed.

Lemma bracket_starts : starts_in re_bracket (ch 91).
Proof.
  split; [reflexivity|]. intros c u Hc. rewrite bracket_cons.
  unfold ch in Hc. by rewrite Hc.
Qed.

Lemma outside_eth_ne c a :
  outside_eth c = true -> a ∈ [69; 84; 72; 93] -> c <> a.
Proof.
  intros Hc Ha ->. unfold outside_eth in Hc.
  repeat (apply elem_of_cons in Ha as [->|Ha]; [discriminate Hc|]).
  by apply elem_of_nil in Ha.
Qed.

Lemma del_keeps_eth Q u u' :
  (forall d x, Q d x -> head_in outside_eth d x) ->
  del Q u u' -> no_bracket u -> no_bracket u'.
Proof.
  intros HQ Hdel [H|H]; [|right; by eapply del_not_elem].
  left. apply starts_with_app in H as [t ->]. simpl in Hdel.
  assert (Hinv : forall a s s', a ∈ [69; 84; 72; 93] ->
            del Q (a :: s) s' -> exists s'', s' = a :: s'' /\ del Q s s'').
  { intros a s s' Ha. apply del_cons_inv. intros d x Hd.
    apply HQ in Hd. destruct d as [|b d]; [done|]. simpl in Hd.
    exists b, d. split; [reflexivity|]. by apply outside_eth_ne. }
  apply Hinv in Hdel as (s1 & -> & Hdel); [|set_solver].
  apply Hinv in Hdel as (s2 & -> & Hdel); [|set_solver].
  apply Hinv in Hdel as (s3 & -> & Hdel); [|set_solver].
  apply Hinv in Hdel as (s4 & -> & Hdel); [|set_solver].
  apply starts_with_app. by exists s4.
Qed.

Lemma bracket_del_none Q c s s' :
  (forall d x, Q d x -> head_in outside_eth d x) ->
  del Q s s' ->
  match_at re_bracket (c :: s) = None -> match_at re_bracket (c :: s') = None.
Proof.
  intros HQ Hdel. destruct (N.eqb_spec c 91) as [->|Hne].
  - rewrite !bracket_none. by apply (del_keeps_eth Q).
  - intros _. apply bracket_starts. unfold ch. by apply N.eqb_neq.
Qed.

Lemma head_in_mono (C C' : char -> bool) d x :
  (forall c, C c = true -> C' c = true) -> head_in C d x -> head_in C' d x.
Proof. intros H. destruct d; simpl; auto. Qed.

Lemma bracket_establish s : stable re_bracket (replaceAll re_bracket [] s).
Proof.
  apply replaceAll_stable; [apply consuming_Chr|].
  intros c s1 s2. apply (bracket_del_none (matched re_bracket)). intros d x Hd.
  eapply head_in_mono; [|eapply matched_head_in; [apply bracket_starts|exact Hd]].
  intros a Ha. apply N.eqb_eq in Ha as ->. reflexivity.
Qed.

(** *** The numeric tag: every match is also a bracket match *)

Lemma numeric_none t :
  match_at re_bracket t = None -> match_at re_numeric_tag t = None.
Proof.
  intros Hb. destruct (match_at re_numeric_tag t) as [rest|] eqn:E; [|done].
  exfalso. unfold match_at, re_numeric_tag in E. cbn [Seq exec Plus] in E.
  destruct t as [|c u]; [discriminate|].
  unfold ch at 1 in E. destruct (N.eqb_spec c 91) as [->|]; [|discriminate].
  destruct u as [|d u1]; [discriminate|].
  destruct (is_digit d) eqn:Ed; [|discriminate].
  apply bracket_none in Hb as [Hb|Hb].
  - apply starts_with_app in Hb as [t [= -> _]]. discriminate Ed.
  - apply star_suffix in E as (t1 & Ht1 & E).
    apply exec_suffix in E as (t2 & Ht2 & E).
    destruct t2 as [|x t3]; [discriminate|].
    destruct (is_digit x || (x =? 47)); [|discriminate].
    apply star_suffix in E as (t4 & Ht4 & E).
    destruct t4 as [|y t5]; [discriminate|].
    unfold ch in E. destruct (N.eqb_spec y 93) as [->|]; [|discriminate].
    apply Hb. right.
    assert (Hs : suffix (93 :: t5) u1).
    { etrans; [exact Ht4|]. etrans; [by apply suffix_cons_r|].
      etrans; [exact Ht2|exact Ht1]. }
    destruct Hs as [k ->]. set_solver.
Qed.

Lemma numeric_stable s : stable re_bracket s -> stable re_numeric_tag s.
Proof. intros H t Ht. by apply numeric_none, H. Qed.

(** *** Corner brackets *)

Lemma corner_cons c u :
  match_at re_corner (c :: u) =
  if c =? 12302 then expect 12303 (drop_while (not_ch 12303) u) else None.
Proof.
  unfold match_at, re_corner. cbn [Seq exec]. unfold ch at 1.
  destruct (c =? 12302); [|reflexivity].
  rewrite star_stop; [reflexivity|].
  intros x t Hx. by apply (expect_not_ch 12303).
Qed.

Lemma corner_starts : starts_in re_corner (ch 12302).
Proof.
  split; [reflexivity|]. intros c u Hc. rewrite corner_cons.
  unfold ch in Hc. by rewrite Hc.
Qed.

Lemma corner_del_none Q c s s' :
  del Q s s' ->
  match_at re_corner (c :: s) = None -> match_at re_corner (c :: s') = None.
Proof.
  intros Hdel. rewrite !corner_cons. destruct (c =? 12302); [|done].
  rewrite !expect_drop_none. by eapply del_not_elem.
Qed.

Lemma corner_establish s : stable re_corner (replaceAll re_corner [] s).
Proof.
  apply replaceAll_stable; [apply consuming_Chr|].
  intros c s1 s2. exact (corner_del_none _ c s1 s2).
Qed.

(** *** Suffix and prefix notes *)

Lemma suffix_note_cons c u :
  match_at re_suffix_note (c :: u) =
  if c =? 32512 then
    match u with
    | x :: t => if is_colon x then Some (drop_while dot t) else None
    | [] => None
    end
  else None.
Proof.
  unfold match_at, re_suffix_note. cbn [Seq exec]. unfold ch at 1.
  destruct (c =? 32512); [|reflexivity].
  destruct u as [|x t]; [reflexivity|].
  destruct (is_colon x); [|reflexivity]. apply star_greedy.
Qed.

Lemma suffix_note_none u :
  match_at re_suffix_note (32512 :: u) = None <-> no_colon u.
Proof.
  rewrite suffix_note_cons. change (32512 =? 32512) with true. cbv iota.
  destruct u as [|x t]; simpl; [done|].
  destruct (is_colon x); split; (done || discriminate).
Qed.

Lemma suffix_note_starts : starts_in re_suffix_note (ch 32512).
Proof.
  split; [reflexivity|]. intros c u Hc. rewrite suffix_note_cons.
  unfold ch in Hc. by rewrite Hc.
Qed.

Lemma del_keeps_no_colon Q u u' :
  (forall d x, Q d x -> no_colon x \/ same_next d x) ->
  del Q u u' -> no_colon u -> no_colon u'.
Proof.
  intros HQ Hdel Hu. destruct Hdel as [|c s s' H|d s s' Hd H]; [done..|].
  destruct (HQ _ _ Hd) as [Hx|Hx]; [exact Hx|].
  destruct d as [|c d]; [done|]. destruct s' as [|x s']; [done|].
  simpl in Hx. by subst.
Qed.

Lemma suffix_note_del_none Q c s s' :
  (forall d x, Q d x -> no_colon x \/ same_next d x) ->
  del Q s s' ->
  match_at re_suffix_note (c :: s) = None ->
  match_at re_suffix_note (c :: s') = None.
Proof.
  intros HQ Hdel. destruct (N.eqb_spec c 32512) as [->|Hne].
  - rewrite !suffix_note_none. by apply (del_keeps_no_colon Q).
  - intros _. apply suffix_note_starts. unfold ch. by apply N.eqb_neq.
Qed.

Lemma drop_while_head p s :
  match drop_while p s with
  | y :: _ => p y = false
  | [] => True
  end.
Proof.
  induction s as [|c s IH]; simpl; [done|].
  destruct (p c) eqn:E; [exact IH | exact E].
Qed.

Lemma line_terminator_cases y :
  is_line_terminator y = true -> y ∈ [10; 13; 8232; 8233].
Proof.
  unfold is_line_terminator. rewrite !orb_true_iff, !N.eqb_eq.
  intros [[[->| ->]| ->]| ->]; set_solver.
Qed.

(** What follows a removed note is the end of the text or a line
    terminator, which the substitution keeps. *)
Lemma suffix_note_own d x : matched re_suffix_note d x -> no_colon x.
Proof.
  intros [Hd (rest & E & ->)]. destruct d as [|c d]; [done|].
  simpl in E. rewrite suffix_note_cons in E.
  destruct (c =? 32512); [|discriminate].
  destruct (d ++ rest) as [|y t]; [discriminate|].
  destruct (is_colon y); [|discriminate]. injection E as E.
  pose proof (drop_while_head dot t) as Hh. rewrite E in Hh.
  destruct rest as [|z rest]; [done|].
  apply negb_false_iff, line_terminator_cases in Hh.
  rewrite replaceAll_cons, suffix_note_cons.
  repeat (apply elem_of_cons in Hh as [->|Hh]; [done|]).
  by apply elem_of_nil in Hh.
Qed.

Lemma suffix_note_establish s :
  stable re_suffix_note (replaceAll re_suffix_note [] s).
Proof.
  apply replaceAll_stable; [apply consuming_Chr|].
  intros c s1 s2. apply (suffix_note_del_none (matched re_suffix_note)).
  intros d x Hd. left. by apply (suffix_note_own d).
Qed.

Lemma prefix_note_cons c u :
  match_at re_prefix_note (c :: u) =
  if c =? 21069 then match_at re_suffix_note u else None.
Proof.
  unfold match_at, re_prefix_note, re_suffix_note. cbn [Seq exec].
  unfold ch at 1. by destruct (c =? 21069).
Qed.

Lemma prefix_note_stable s :
  stable re_suffix_note s -> stable re_prefix_note s.
Proof.
  intros H [|c u] Ht; [reflexivity|]. rewrite prefix_note_cons.
  destruct (c =? 21069); [|reflexivity].
  apply H. by eapply suffix_cons_l.
Qed.

(** *** Blank lines *)

Lemma blank_cons c u :
  match_at re_blank_lines (c :: u) =
  if c =? 10 then star is_ws (expect 10) u else None.
Proof.
  unfold match_at, re_blank_lines. cbn [Seq exec]. unfold ch at 1.
  by destruct (c =? 10).
Qed.

Lemma blank_starts : starts_in re_blank_lines (ch 10).
Proof.
  split; [reflexivity|]. intros c u Hc. rewrite blank_cons.
  unfold ch in Hc. by rewrite Hc.
Qed.

Lemma expect_cons_none c x u u' :
  expect c (x :: u) = None -> expect c (x :: u') = None.
Proof. unfold expect. by destruct (x =? c). Qed.

Lemma del_keeps_no_blank Q u u' :
  (forall d x, Q d x -> head_in (ch 10) d x \/ x = []) ->
  del Q u u' -> no_blank u -> no_blank u'.
Proof.
  intros HQ Hdel. unfold no_blank.
  induction Hdel as [|c s s' H IH|d s s' Hd H IH]; [done|..].
  - simpl. destruct (is_ws c).
    + destruct (star is_ws (expect 10) s); [discriminate|].
      rewrite IH by reflexivity. apply expect_cons_none.
    + apply expect_cons_none.
  - destruct (HQ _ _ Hd) as [Hh| ->]; [|reflexivity].
    destruct d as [|c d]; [done|]. simpl in Hh.
    apply N.eqb_eq in Hh as ->. simpl.
    by destruct (star is_ws (expect 10) (d ++ s)).
Qed.

Lemma blank_del_none Q c s s' :
  (forall d x, Q d x -> head_in (ch 10) d x \/ x = []) ->
  del Q s s' ->
  match_at re_blank_lines (c :: s) = None ->
  match_at re_blank_lines (c :: s') = None.
Proof.
  intros HQ Hdel. rewrite !blank_cons. destruct (c =? 10); [|done].
  by apply (del_keeps_no_blank Q).
Qed.

(** A match ends at the last line feed of the whitespace run. *)
Lemma blank_match u rest :
  star is_ws (expect 10) u = Some rest ->
  exists w, u = w ++ 10 :: rest /\ no_blank rest.
Proof.
  unfold no_blank. induction u as [|c u IH]; simpl; [discriminate|].
  assert (Hk : expect 10 (c :: u) = Some rest ->
               star is_ws (expect 10) u = None ->
               exists w, c :: u = w ++ 10 :: rest /\
                         star is_ws (expect 10) rest = None).
  { unfold expect. destruct (N.eqb_spec c 10) as [->|]; [|discriminate].
    intros [= ->] Hn. by exists []. }
  destruct (is_ws c) eqn:Ec.
  - destruct (star is_ws (expect 10) u) as [r|] eqn:E.
    + intros [= ->]. destruct (IH eq_refl) as (w & -> & Hn).
      by exists (c :: w).
    + intros H. by apply Hk.
  - unfold expect. destruct (N.eqb_spec c 10) as [->|]; [|discriminate].
    discriminate Ec.
Qed.

Lemma blank_replace_cons c u :
  replaceAll re_blank_lines [10] (c :: u) =
  if c =? 10 then
    match star is_ws (expect 10) u with
    | Some rest => 10 :: replaceAll re_blank_lines [10] rest
    | None => c :: replaceAll re_blank_lines [10] u
    end
  else c :: replaceAll re_blank_lines [10] u.
Proof.
  assert (Hc : consuming re_blank_lines) by apply consuming_Chr.
  rewrite replaceAll_cons.
  destruct (match_at re_blank_lines (c :: u)) as [rest|] eqn:E.
  - apply Hc in E as Hlt. apply Nat.ltb_lt in Hlt. rewrite Hlt.
    rewrite blank_cons in E. destruct (c =? 10); [|discriminate].
    by rewrite E.
  - rewrite blank_cons in E. destruct (c =? 10); [|reflexivity].
    by rewrite E.
Qed.

Lemma blank_replace_nil : replaceAll re_blank_lines [10] [] = [].
Proof. reflexivity. Qed.

Lemma blank_del s : del blank_cut s (replaceAll re_blank_lines [10] s).
Proof.
  remember (length s) as n eqn:En. revert s En.
  induction n as [n IH] using lt_wf_ind. intros s ->.
  destruct s as [|c u]; [constructor|].
  rewrite blank_replace_cons.
  destruct (N.eqb_spec c 10) as [->|Hne].
  - destruct (star is_ws (expect 10) u) as [rest|] eqn:E.
    + apply blank_match in E as (w & -> & _).
      change (10 :: w ++ 10 :: rest) with ((10 :: w) ++ 10 :: rest).
      apply del_cut; [by split|]. apply del_keep.
      eapply IH; [|reflexivity]. unfold str, char in *. simpl. rewrite length_app. simpl. lia.
    + apply del_keep. eapply IH; [|reflexivity]. simpl. lia.
  - apply del_keep. eapply IH; [|reflexivity]. simpl. lia.
Qed.

Lemma blank_cut_ok d x : blank_cut d x -> head_in (ch 10) d x \/ x = [].
Proof. intros [H _]. by left. Qed.

Lemma blank_establish s :
  stable re_blank_lines (replaceAll re_blank_lines [10] s).
Proof.
  remember (length s) as n eqn:En. revert s En.
  induction n as [n IH] using lt_wf_ind. intros s ->.
  destruct s as [|c u].
  - intros t Ht. by apply suffix_nil_inv in Ht as ->.
  - rewrite blank_replace_cons.
    assert (Hu : stable re_blank_lines (replaceAll re_blank_lines [10] u)).
    { eapply IH; [|reflexivity]. simpl. lia. }
    destruct (N.eqb_spec c 10) as [->|Hne].
    + destruct (star is_ws (expect 10) u) as [rest|] eqn:E.
      * apply blank_match in E as (w & -> & Hn).
        apply stable_cons. split.
        -- rewrite blank_cons. change (10 =? 10) with true. cbv iota.
           eapply (del_keeps_no_blank blank_cut);
             [apply blank_cut_ok | apply blank_del | exact Hn].
        -- eapply IH; [|reflexivity].
           unfold str, char in *. simpl. rewrite length_app. simpl. lia.
      * apply stable_cons. split; [|exact Hu].
        rewrite blank_cons. change (10 =? 10) with true. cbv iota.
        eapply (del_keeps_no_blank blank_cut);
          [apply blank_cut_ok | apply blank_del | exact E].
    + apply stable_cons. split; [|exact Hu].
      rewrite blank_cons. apply N.eqb_neq in Hne. by rewrite Hne.
Qed.

End OcrRegexes.

(** ** Trimming *)

Section TrimFacts.
Import JsStr Regex Ocr.

Lemma drop_while_split p s :
  exists a, s = a ++ drop_while p s /\ Forall (fun c => p c = true) a.
Proof.
  induction s as [|c s (a & Ha & Hp)]; simpl.
  - by exists [].
  - destruct (p c) eqn:E.
    + exists (c :: a). split; [by rewrite Ha at 1 | by constructor].
    + by exists [].
Qed.

Lemma drop_ws_head s : head_ok (drop_ws s).
Proof. apply (drop_while_head is_ws). Qed.

Lemma drop_ws_id s : head_ok s -> drop_ws s = s.
Proof. unfold drop_ws. destruct s as [|c s]; simpl; [done|]. by intros ->. Qed.

Lemma head_ok_app a b : a <> [] -> head_ok (a ++ b) <-> head_ok a.
Proof. by destruct a. Qed.

Lemma trim_id s : trimmed s -> trim s = s.
Proof.
  intros [H1 H2]. unfold trim.
  by rewrite (drop_ws_id s), (drop_ws_id (rev s)), rev_involutive.
Qed.

(** [trim] cuts a white prefix and a white suffix. *)
Lemma trim_split s :
  exists a b, s = a ++ trim s ++ b /\
              Forall (fun c => is_ws c = true) a /\
              Forall (fun c => is_ws c = true) b.
Proof.
  destruct (drop_while_split is_ws s) as (a & Ha & Hwa).
  destruct (drop_while_split is_ws (rev (drop_ws s))) as (b & Hb & Hwb).
  exists a, (rev b). split; [|split; [exact Hwa|]].
  - unfold trim. rewrite <- rev_app_distr. fold drop_ws in Hb.
    by rewrite <- Hb, rev_involutive.
  - apply Forall_forall. intros c Hc. rewrite Forall_forall in Hwb.
    apply Hwb. apply list_elem_of_In, in_rev. by apply list_elem_of_In.
Qed.

Lemma trimmed_trim s : trimmed (trim s).
Proof.
  unfold trimmed, trim. rewrite rev_involutive. split; [|apply drop_ws_head].
  pose proof (drop_ws_head s) as Hs.
  destruct (drop_while_split is_ws (rev (drop_ws s))) as (b & Hb & _).
  fold drop_ws in Hb. set (y := drop_ws (rev (drop_ws s))) in *.
  assert (E : drop_ws s = rev y ++ rev b).
  { by rewrite <- rev_app_distr, <- Hb, rev_involutive. }
  destruct (rev y) as [|c t] eqn:Ey; [done|].
  rewrite E in Hs. exact Hs.
Qed.

Lemma trim_del s : exists t, suffix t s /\ del tail_cut t (trim s).
Proof.
  destruct (trim_split s) as (a & b & E & _ & Hb).
  exists (trim s ++ b). split; [by exists a|].
  rewrite <- (app_nil_r (trim s)) at 2. apply del_app_keep.
  destruct b as [|c b]; [constructor|].
  rewrite <- (app_nil_r (c :: b)). apply del_cut; [|constructor].
  split; [|reflexivity]. simpl. by inversion Hb.
Qed.

Lemma ws_outside_eth c : is_ws c = true -> outside_eth c = true.
Proof.
  intros H. unfold outside_eth. apply negb_true_iff.
  rewrite !orb_false_iff, !N.eqb_neq.
  repeat split; intros ->; discriminate H.
Qed.

End TrimFacts.

(** ** The cleaned text is a fixed point of the cleaning chain *)

Section Cleaned.
Import JsStr Regex Ocr.

Lemma cleaned_fix c : cleaned c -> clean c = c.
Proof.
  intros [H1 H3 H4 H6 Ht]. unfold clean.
  rewrite (stable_replaceAll re_bracket) by exact H1.
  rewrite (stable_replaceAll re_numeric_tag) by by apply numeric_stable.
  rewrite (stable_replaceAll re_corner) by exact H3.
  rewrite (stable_replaceAll re_suffix_note) by exact H4.
  rewrite (stable_replaceAll re_prefix_note) by by apply prefix_note_stable.
  rewrite (stable_replaceAll re_blank_lines) by exact H6.
  by apply trim_id.
Qed.

Lemma gentle_bracket s s' :
  del gentle s s' -> stable re_bracket s -> stable re_bracket s'.
Proof.
  apply (stable_del _ gentle).
  intros c u u'. apply (bracket_del_none gentle). by intros d x [? _].
Qed.

Lemma gentle_corner s s' :
  del gentle s s' -> stable re_corner s -> stable re_corner s'.
Proof.
  apply (stable_del _ gentle).
  intros c u u'. exact (corner_del_none gentle c u u').
Qed.

Lemma gentle_note s s' :
  del gentle s s' -> stable re_suffix_note s -> stable re_suffix_note s'.
Proof.
  apply (stable_del _ gentle).
  intros c u u'. apply (suffix_note_del_none gentle).
  by intros d x (_ & ? & _).
Qed.

Lemma gentle_blank s s' :
  del gentle s s' -> stable re_blank_lines s -> stable re_blank_lines s'.
Proof.
  apply (stable_del _ gentle).
  intros c u u'. apply (blank_del_none gentle).
  by intros d x (_ & _ & ?).
Qed.

Lemma blank_cut_gentle d x : blank_cut d x -> gentle d x.
Proof.
  intros [Hh Hs]. repeat split; [|by right|by left].
  eapply head_in_mono; [|exact Hh].
  intros a Ha. by apply N.eqb_eq in Ha as ->.
Qed.

Lemma tail_cut_gentle d x : tail_cut d x -> gentle d x.
Proof.
  intros [Hh ->]. repeat split; [|by left|by right].
  eapply head_in_mono; [|exact Hh]. apply ws_outside_eth.
Qed.

Lemma clean_cleaned s : cleaned (clean s).
Proof.
  unfold clean. rewrite js_nl.
  set (x1 := replaceAll re_bracket [] s).
  assert (H1 : stable re_bracket x1) by apply bracket_establish.
  rewrite (stable_replaceAll re_numeric_tag [] x1) by by apply numeric_stable.
  set (x3 := replaceAll re_corner [] x1).
  assert (H3 : stable re_bracket x3 /\ stable re_corner x3).
  { split; [|apply corner_establish].
    eapply (stable_del _ (matched re_corner));
      [|apply replaceAll_del|exact H1].
    intros c u u'. apply (bracket_del_none (matched re_corner)).
    intros d x Hd. eapply head_in_mono;
      [|eapply matched_head_in; [apply corner_starts|exact Hd]].
    intros a Ha. by apply N.eqb_eq in Ha as ->. }
  destruct H3 as [H31 H33].
  set (x4 := replaceAll re_suffix_note [] x3).
  assert (H4 : stable re_bracket x4 /\ stable re_corner x4
               /\ stable re_suffix_note x4).
  { split; [|split; [|apply suffix_note_establish]].
    - eapply (stable_del _ (matched re_suffix_note));
        [|apply replaceAll_del|exact H31].
      intros c u u'. apply (bracket_del_none (matched re_suffix_note)).
      intros d x Hd. eapply head_in_mono;
        [|eapply matched_head_in; [apply suffix_note_starts|exact Hd]].
      intros a Ha. by apply N.eqb_eq in Ha as ->.
    - eapply (stable_del _ (matched re_suffix_note));
        [|apply replaceAll_del|exact H33].
      intros c u u'. exact (corner_del_none _ c u u'). }
  destruct H4 as (H41 & H43 & H44).
  rewrite (stable_replaceAll re_prefix_note [] x4)
    by by apply prefix_note_stable.
  set (x6 := replaceAll re_blank_lines [10] x4).
  assert (Hd6 : del gentle x4 x6).
  { eapply del_mono; [apply blank_cut_gentle | apply blank_del]. }
  assert (H66 : stable re_blank_lines x6) by apply blank_establish.
  destruct (trim_del x6) as (t & Hsuf & Hdel).
  assert (Hd : del gentle t (trim x6)).
  { eapply del_mono; [apply tail_cut_gentle | exact Hdel]. }
  split; [..|apply trimmed_trim].
  - eapply gentle_bracket, stable_suffix, gentle_bracket; eassumption.
  - eapply gentle_corner, stable_suffix, gentle_corner; eassumption.
  - eapply gentle_note, stable_suffix, gentle_note; eassumption.
  - eapply gentle_blank, stable_suffix; eassumption.
Qed.

End Cleaned.

(** ** Lines *)

Section Lines.
Import JsStr Regex Ocr.

Lemma split_nonempty sep s : split sep s <> [].
Proof.
  destruct s as [|c s]; simpl; [done|].
  destruct (c =? sep); [done|]. by destruct (split sep s).
Qed.

Lemma join_cons sep l ls :
  ls <> [] -> join sep (l :: ls) = l ++ sep ++ join sep ls.
Proof. by destruct ls. Qed.

Lemma join_split sep s : join [sep] (split sep s) = s.
Proof.
  induction s as [|c s IH]; simpl; [reflexivity|].
  destruct (N.eqb_spec c sep) as [->|Hne].
  - rewrite join_cons by apply split_nonempty. simpl. by rewrite IH.
  - pose proof (split_nonempty sep s) as Hs.
    destruct (split sep s) as [|l ls]; [done|].
    destruct ls as [|l' ls]; simpl in *; by rewrite <- IH.
Qed.

Lemma join_app sep A B :
  A <> [] -> B <> [] ->
  join sep (A ++ B) = join sep A ++ sep ++ join sep B.
Proof.
  intros HA HB. induction A as [|a A IH]; [done|].
  destruct A as [|a' A].
  - simpl app. by rewrite join_cons.
  - change ((a :: a' :: A) ++ B) with (a :: (a' :: A) ++ B).
    rewrite !join_cons by done. rewrite IH by done.
    by rewrite <- !app_assoc.
Qed.

Lemma split_no_sep sep s : Forall (fun l => sep ∉ l) (split sep s).
Proof.
  induction s as [|c s IH]; simpl.
  - constructor; [apply not_elem_of_nil | constructor].
  - destruct (N.eqb_spec c sep) as [->|Hne].
    + constructor; [apply not_elem_of_nil | exact IH].
    + destruct (split sep s) as [|l ls].
      * constructor; [|constructor].
        rewrite not_elem_of_cons. split; [done | apply not_elem_of_nil].
      * inversion IH as [|? ? Hl Hls]; subst.
        constructor; [|exact Hls]. rewrite not_elem_of_cons. by split.
Qed.

Lemma split_line sep l :
  sep ∉ l -> split sep l = [l].
Proof.
  induction l as [|c l IH]; intros H; simpl; [reflexivity|].
  apply not_elem_of_cons in H as [Hc Hl].
  destruct (N.eqb_spec c sep) as [->|_]; [done|]. by rewrite IH.
Qed.

Lemma split_app_line sep l rest :
  sep ∉ l -> split sep (l ++ sep :: rest) = l :: split sep rest.
Proof.
  induction l as [|c l IH]; intros H; simpl.
  - by rewrite N.eqb_refl.
  - apply not_elem_of_cons in H as [Hc Hl].
    destruct (N.eqb_spec c sep) as [->|_]; [done|]. by rewrite IH.
Qed.

Lemma split_join sep L :
  L <> [] -> Forall (fun l => sep ∉ l) L -> split sep (join [sep] L) = L.
Proof.
  intros HL H. induction H as [|l L Hl H IH]; [done|].
  destruct L as [|l' L].
  - simpl. by apply split_line.
  - rewrite join_cons by done.
    etrans; [by apply (split_app_line sep l (join [sep] (l' :: L)))|].
    by rewrite IH.
Qed.

Lemma find_level_none L j : Forall plain L -> find_level L j = (-1)%Z.
Proof.
  intros H. revert j. induction H as [|l L Hl H IH]; intros j; simpl.
  - reflexivity.
  - unfold plain in Hl. rewrite Hl. apply IH.
Qed.

Lemma find_level_found A l B j :
  Forall plain A -> is_level_line l = true ->
  find_level (A ++ l :: B) j = (j + Z.of_nat (length A))%Z.
Proof.
  intros H Hl. revert j. induction H as [|a A Ha H IH]; intros j; simpl.
  - rewrite Hl. lia.
  - unfold plain in Ha. rewrite Ha, IH. lia.
Qed.

Lemma find_level_cases L :
  Forall plain L \/
  exists A l B, L = A ++ l :: B /\ Forall plain A /\ is_level_line l = true.
Proof.
  induction L as [|a L IH]; [left; constructor|].
  destruct (is_level_line a) eqn:Ea.
  - right. exists [], a, L. repeat split; [constructor | exact Ea].
  - destruct IH as [IH|(A & l & B & -> & HA & Hl)].
    + left. by constructor.
    + right. exists (a :: A), l, B. repeat split; [by constructor | exact Hl].
Qed.

Lemma slice_take {T} (L : list T) (n : nat) :
  (n <= length L)%nat -> slice L 0 (Z.of_nat n) = take n L.
Proof.
  intros H. unfold slice, rel_index.
  destruct (Z.ltb_spec 0 0); [lia|].
  destruct (Z.ltb_spec (Z.of_nat n) 0); [lia|].
  rewrite Z.min_l by lia. rewrite Z.min_l by lia.
  simpl. by rewrite Z.sub_0_r, Nat2Z.id.
Qed.

Lemma slice_from_drop {T} (L : list T) (n : nat) :
  (n <= length L)%nat -> slice_from L (Z.of_nat n) = drop n L.
Proof.
  intros H. unfold slice_from, slice, rel_index.
  destruct (Z.ltb_spec (Z.of_nat n) 0); [lia|].
  destruct (Z.ltb_spec (Z.of_nat (length L)) 0); [lia|].
  rewrite !Z.min_l by lia.
  rewrite Nat2Z.id. apply take_ge. rewrite length_drop. lia.
Qed.

(** The two outcomes of [preprocessOcrText], by the position of the first
    level-requirement line. *)
Lemma preprocess_found s A l B :
  split 10 (clean s) = A ++ l :: B ->
  Forall plain A -> is_level_line l = true ->
  preprocessOcrText s =
  trim (join [10] (take (min 3 (length A)) A ++ l :: B)).
Proof.
  intros E HA Hl. unfold preprocessOcrText. cbv zeta. rewrite E, js_nl.
  rewrite find_level_found by assumption. rewrite Z.add_0_l.
  destruct (Z.eqb_spec (Z.of_nat (length A)) (-1)) as [|_]; [lia|].
  cbv [negb]. replace (Z.min 3 (Z.of_nat (length A)))
    with (Z.of_nat (min 3 (length A))) by lia.
  rewrite slice_take by (rewrite length_app; cbn [length]; lia).
  rewrite slice_from_drop by (rewrite length_app; cbn [length]; lia).
  rewrite take_app_le by lia.
  by rewrite drop_app_length.
Qed.

Lemma preprocess_none s :
  Forall plain (split 10 (clean s)) -> preprocessOcrText s = clean s.
Proof.
  intros H. unfold preprocessOcrText. cbv zeta.
  by rewrite find_level_none.
Qed.

Lemma line_cut_gentle d x : line_cut d x -> gentle d x.
Proof.
  intros [Hd Hx]. apply blank_cut_gentle. split; [exact Hd|].
  destruct d as [|c d]; [done|]. destruct x as [|y x]; [done|].
  simpl in *. apply N.eqb_eq in Hd, Hx. congruence.
Qed.

Lemma join_drop_lines A M B :
  B <> [] -> (M = [] \/ A <> []) ->
  del line_cut (join [10] (A ++ M ++ B)) (join [10] (A ++ B)).
Proof.
  intros HB [->|HA]; [apply del_refl|].
  destruct M as [|m M]; [apply del_refl|].
  rewrite !join_app by (done || by destruct B).
  apply del_app_keep.
  change ([10] ++ join [10] (m :: M) ++ [10] ++ join [10] B)
    with ((10 :: join [10] (m :: M)) ++ [10] ++ join [10] B).
  apply del_cut; [by split | apply del_refl].
Qed.

Lemma line_cut_nonempty s s' : del line_cut s s' -> s' = [] -> s = [].
Proof.
  destruct 1 as [|c s s' H|d s s' [_ Hx] H]; [done|done|].
  intros ->. done.
Qed.

Lemma del_nil_inv Q s' : (forall x, ~ Q [] x) -> del Q [] s' -> s' = [].
Proof.
  intros HQ H. remember [] as s eqn:E. revert E.
  induction H as [|c s s' H IH|d s s' Hd H IH]; intros E; [done|done|].
  apply app_eq_nil in E as [-> ->]. by apply HQ in Hd.
Qed.

Lemma head_ok_rev_cons c s : s <> [] -> head_ok (rev (c :: s)) <-> head_ok (rev s).
Proof.
  intros Hs. simpl. apply head_ok_app.
  intros E. apply Hs. by rewrite <- (rev_involutive s), E.
Qed.

Lemma head_ok_rev_app a s : s <> [] -> head_ok (rev (a ++ s)) <-> head_ok (rev s).
Proof.
  intros Hs. rewrite rev_app_distr. apply head_ok_app.
  intros E. apply Hs. by rewrite <- (rev_involutive s), E.
Qed.

Lemma line_cut_trimmed s s' :
  del line_cut s s' -> trimmed s -> trimmed s'.
Proof.
  intros Hd [Hh Hl]. split.
  - destruct Hd as [|c s s' H|d s s' [Hc _] H]; [done|done|].
    destruct d as [|c d]; [done|]. simpl in Hc, Hh.
    apply N.eqb_eq in Hc as ->. discriminate Hh.
  - clear Hh. induction Hd as [|c s s' H IH|d s s' Hq H IH]; [done|..].
    + destruct s as [|a s].
      * apply del_nil_inv in H as ->; [exact Hl|]. by intros x [? _].
      * assert (s' <> []).
        { intros ->. by apply line_cut_nonempty in H. }
        apply head_ok_rev_cons; [done|]. apply IH.
        by apply head_ok_rev_cons in Hl.
    + assert (s' <> []) by (destruct Hq as [_ Hx]; by destruct s').
      assert (s <> []).
      { intros ->. apply del_nil_inv in H; [done|]. by intros x [? _]. }
      apply IH. by apply head_ok_rev_app in Hl.
Qed.

Lemma line_cut_cleaned s s' : del line_cut s s' -> cleaned s -> cleaned s'.
Proof.
  intros Hd [H1 H3 H4 H6 Ht].
  assert (Hg : del gentle s s').
  { eapply del_mono; [apply line_cut_gentle | exact Hd]. }
  split.
  - by eapply gentle_bracket.
  - by eapply gentle_corner.
  - by eapply gentle_note.
  - by eapply gentle_blank.
  - by eapply line_cut_trimmed.
Qed.

End Lines.

(** ** [preprocessOcrText]: the claims *)

Section OcrClaims.
Import JsStr Regex Ocr.

Lemma kept_lines_del s A l B :
  split 10 (clean s) = A ++ l :: B ->
  del line_cut (clean s) (join [10] (take (min 3 (length A)) A ++ l :: B)).
Proof.
  intros E. rewrite <- (join_split 10 (clean s)), E.
  set (m := min 3 (length A)).
  rewrite <- (take_drop m A) at 1. rewrite <- app_assoc.
  apply join_drop_lines; [done|].
  destruct (decide (length A <= 3)%nat) as [Hle|Hgt].
  - left. apply drop_ge. unfold m. lia.
  - right. intros E0. apply (f_equal length) in E0.
    rewrite length_take in E0. simpl in E0. unfold m in E0. lia.
Qed.

Lemma kept_lines_split s A l B :
  split 10 (clean s) = A ++ l :: B ->
  split 10 (join [10] (take (min 3 (length A)) A ++ l :: B))
  = take (min 3 (length A)) A ++ l :: B.
Proof.
  intros E. apply split_join; [by destruct (take _ A)|].
  pose proof (split_no_sep 10 (clean s)) as H. rewrite E in H.
  apply Forall_app in H as [HA HB].
  apply Forall_app. split; [by apply Forall_take | exact HB].
Qed.

(** C10. [preprocessOcrText] is idempotent: applying it to its own output
    changes nothing, for every input string. *)
Theorem preprocessOcrText_idempotent (s : str) :
  preprocessOcrText (preprocessOcrText s) = preprocessOcrText s.
Proof.
  pose proof (clean_cleaned s) as Hc.
  destruct (find_level_cases (split 10 (clean s)))
    as [Hn|(A & l & B & E & HA & Hl)].
  - rewrite (preprocess_none s Hn).
    rewrite preprocess_none; rewrite cleaned_fix; done.
  - rewrite (preprocess_found s A l B E HA Hl).
    set (m := min 3 (length A)).
    pose proof (kept_lines_del s A l B E) as Hdel. fold m in Hdel.
    pose proof (kept_lines_split s A l B E) as Hsplit. fold m in Hsplit.
    pose proof (line_cut_cleaned _ _ Hdel Hc) as Hc'.
    rewrite (trim_id _ (cl_trimmed _ Hc')).
    rewrite (preprocess_found _ (take m A) l B).
    + rewrite length_take.
      replace (min 3 (min m (length A))) with m by (unfold m; lia).
      rewrite take_take. replace (min m m) with m by lia.
      apply trim_id, Hc'.
    + by rewrite cleaned_fix.
    + by apply Forall_take.
    + exact Hl.
Qed.

(** C3. When the first line of the cleaned text that contains a
    level-requirement marker is at index [i], the result is the first
    [min 3 i] lines followed by the lines from index [i] on, joined by line
    feeds and trimmed (the lines in between are dropped); when no line
    contains a marker, the result is the cleaned text itself. *)
Theorem preprocessOcrText_level_rule (s : str) :
  let lines := split 10 (clean s) in
  (forall (i : nat) (l : str),
     lines !! i = Some l ->
     is_level_line l = true ->
     Forall (fun l' => is_level_line l' = false) (take i lines) ->
     preprocessOcrText s
     = trim (join (js "\n") (take (min 3 i) lines ++ drop i lines)))
  /\ (Forall (fun l' => is_level_line l' = false) lines ->
      preprocessOcrText s = clean s).
Proof.
  intros lines. split.
  - intros i l Hi Hl Hbefore.
    pose proof (lookup_lt_Some _ _ _ Hi) as Hlt.
    pose proof (take_drop_middle _ _ _ Hi) as E. symmetry in E.
    rewrite (preprocess_found s _ _ _ E Hbefore Hl), js_nl.
    rewrite length_take, take_take.
    replace (min (min 3 (min i (length lines))) i) with (min 3 i) by lia.
    by rewrite (drop_S _ _ _ Hi).
  - apply preprocess_none.
Qed.

Lemma preprocessOcrText_level_rule_witness :
  preprocessOcrText
    (js "暗黑破坏神装备信息：\n力量 +15\n敏捷 +10\n最大生命值 +20\n防御 +50\n等级需求 25\n稀有度：魔法物品")
  = js "暗黑破坏神装备信息：\n力量 +15\n敏捷 +10\n等级需求 25\n稀有度：魔法物品"
  /\ preprocessOcrText (js "力量 +15 [x]\n\n敏捷 +10") = js "力量 +15 \n敏捷 +10".
Proof.
  split.
  - etrans.
    + apply (proj1 (preprocessOcrText_level_rule
               (js "暗黑破坏神装备信息：\n力量 +15\n敏捷 +10\n最大生命值 +20\n防御 +50\n等级需求 25\n稀有度：魔法物品"))
               5%nat (js "等级需求 25")).
      * vm_compute. reflexivity.
      * vm_compute. reflexivity.
      * vm_compute. repeat constructor.
    + vm_compute. reflexivity.
  - etrans.
    + apply (proj2 (preprocessOcrText_level_rule (js "力量 +15 [x]\n\n敏捷 +10"))).
      vm_compute. repeat constructor.
    + vm_compute. reflexivity.
Defined.

(** The bracket substitution steps over ["[ETH]"] wherever it stands. *)
Lemma bracket_skips_eth t :
  replaceAll re_bracket [] ([91; 69; 84; 72; 93] ++ t)
  = [91; 69; 84; 72; 93] ++ replaceAll re_bracket [] t.
Proof.
  simpl app. rewrite replaceAll_cons.
  rewrite (proj2 (bracket_none _)) by (left; reflexivity).
  do 4 (rewrite replaceAll_cons, (proj2 bracket_starts) by reflexivity).
  reflexivity.
Qed.

(** C4. On ["[ETH]无形之刃\n需要等级 30"] the result is the input itself.
    The bracket substitution leaves ["[ETH]"] in place in front of any
    text, while another bracketed annotation is removed. *)
Theorem preprocessOcrText_keeps_eth :
  preprocessOcrText (js "[ETH]无形之刃\n需要等级 30")
  = js "[ETH]无形之刃\n需要等级 30"
  /\ (forall t, replaceAll re_bracket [] (js "[ETH]" ++ t)
                = js "[ETH]" ++ replaceAll re_bracket [] t)
  /\ preprocessOcrText (js "[ETH]无形之刃[蓝色]\n需要等级 30")
     = js "[ETH]无形之刃\n需要等级 30".
Proof.
  split; [vm_compute; reflexivity|]. split; [|vm_compute; reflexivity].
  exact bracket_skips_eth.
Qed.

(** The loop looks for ["需要等級"], written with U+7D1A: a line that spells
    the phrase with U+7EA7 is not a level-requirement line for it, and
    with more than three lines before such a line nothing is dropped. *)
Example level_marker_spelling :
  is_level_line (js "需要等级 25") = false
  /\ is_level_line (js "需要等級 25") = true
  /\ preprocessOcrText (js "a\nb\nc\nd\n需要等级 25")
     = js "a\nb\nc\nd\n需要等级 25"
  /\ preprocessOcrText (js "a\nb\nc\nd\n需要等級 25")
     = js "a\nb\nc\n需要等級 25".
Proof. repeat split; vm_compute; reflexivity. Qed.


End OcrClaims.

(** ** Sorting by time *)

Section SortFacts.
Import JsStr Eff Tz.

Lemma insert_by_perm x l : Permutation (insert_by by_time x l) (x :: l).
Proof.
  induction l as [|y l IH]; simpl; [reflexivity|].
  destruct (by_time x y <=? 0)%Z; [reflexivity|].
  rewrite IH. apply perm_swap.
Qed.

Lemma sort_by_perm l : Permutation (sort_by by_time l) l.
Proof.
  induction l as [|x l IH]; simpl; [reflexivity|].
  fold (sort_by by_time l). by rewrite insert_by_perm, IH.
Qed.

Lemma sort_by_length l : length (sort_by by_time l) = length l.
Proof. apply Permutation_length, sort_by_perm. Qed.

Lemma insert_by_sorted x l :
  StronglySorted time_le l -> StronglySorted time_le (insert_by by_time x l).
Proof.
  induction 1 as [|y l Hl IH Hy]; simpl.
  - repeat constructor.
  - unfold by_time at 1. destruct (Z.leb_spec (time x - time y) 0) as [Hle|Hgt].
    + constructor; [by constructor|].
      constructor; [unfold time_le; lia|].
      eapply Forall_impl; [exact Hy|]. unfold time_le. intros z Hz. lia.
    + constructor; [exact IH|].
      rewrite insert_by_perm. constructor; [unfold time_le; lia | exact Hy].
Qed.

(** The entries come out in ascending order of [time]. *)
Lemma sort_by_sorted l : StronglySorted time_le (sort_by by_time l).
Proof.
  induction l as [|x l IH]; simpl; [constructor|].
  by apply insert_by_sorted.
Qed.

End SortFacts.

(** ** [processTzOnlineData]: the claims *)

Section TzClaims.
Import JsStr Eff Tz.

Lemma get_data_arr_truthy payload entries :
  get_data payload = JArr entries -> truthy payload = true.
Proof. by destruct payload. Qed.

(** The function on a payload whose [data] is an array of two or more
    entries, in terms of the two first entries after sorting. *)
Lemma process_well_shaped areas payload entries e1 e2 rest :
  get_data payload = JArr entries ->
  (2 <= length entries)%nat ->
  sort_by by_time entries = e1 :: e2 :: rest ->
  processTzOnlineData areas payload =
  match areas !! zone e1, areas !! zone e2 with
  | None, _ =>
    Throw (js "Area info not found for current zone: " ++ of_Z (zone e1))
  | Some _, None =>
    Throw (js "Area info not found for next zone: " ++ of_Z (zone e2))
  | Some a1, Some a2 => Return (format_message a1 a2)
  end.
Proof.
  intros Hd Hlen Hs. unfold processTzOnlineData.
  rewrite (get_data_arr_truthy _ _ Hd), Hd. cbn [negb truthy].
  destruct (Nat.ltb_spec (length entries) 2) as [|_]; [lia|].
  fold by_time. by rewrite Hs.
Qed.

(** C2. For a payload [{data: entries}] with at least two entries whose
    two first entries after sorting by [time] have zone ids mapped to
    [{name: n1, tier: t1}] and [{name: n2, tier: t2}], the result is the
    two-line string "TZ：n1，掉落：t1\nNext：n2，掉落：t2"; on the example
    payload with the table 1 -> {A, X}, 2 -> {B, Y} it is
    "TZ：B，掉落：Y\nNext：A，掉落：X". *)
Theorem processTzOnlineData_formats :
  (forall areas payload entries e1 e2 rest a1 a2,
     get_data payload = JArr entries ->
     (2 <= length entries)%nat ->
     sort_by (fun a b => time a - time b)%Z entries = e1 :: e2 :: rest ->
     areas !! zone e1 = Some a1 ->
     areas !! zone e2 = Some a2 ->
     processTzOnlineData areas payload
     = Return (js "TZ：" ++ name a1 ++ js "，掉落：" ++ tier a1
               ++ js "\nNext：" ++ name a2 ++ js "，掉落：" ++ tier a2))
  /\ processTzOnlineData example_areas example_payload
     = Return (js "TZ：B，掉落：Y\nNext：A，掉落：X").
Proof.
  split; [|vm_compute; reflexivity].
  intros areas payload entries e1 e2 rest a1 a2 Hd Hlen Hs H1 H2.
  rewrite (process_well_shaped _ _ _ _ _ _ Hd Hlen Hs), H1, H2.
  unfold format_message.
  replace (js "\nNext：") with (js "\n" ++ js "Next：")
    by (vm_compute; reflexivity).
  by rewrite <- app_assoc.
Qed.

Lemma processTzOnlineData_formats_witness :
  processTzOnlineData example_areas example_payload
  = Return (js "TZ：" ++ js "B" ++ js "，掉落：" ++ js "Y"
            ++ js "\nNext：" ++ js "A" ++ js "，掉落：" ++ js "X").
Proof.
  apply (proj1 processTzOnlineData_formats example_areas example_payload
           [ {| zone := 1; time := 200 |}; {| zone := 2; time := 100 |} ]
           {| zone := 2; time := 100 |} {| zone := 1; time := 200 |} []
           {| name := js "B"; tier := js "Y" |}
           {| name := js "A"; tier := js "X" |}).
  - reflexivity.
  - simpl. lia.
  - reflexivity.
  - vm_compute. reflexivity.
  - vm_compute. reflexivity.
Defined.

(** C6. A payload whose [data] field is missing, is not an array, or is
    an array with fewer than two entries makes the function throw
    "Invalid data format"; it does not return a string. *)
Theorem processTzOnlineData_malformed areas payload :
  (forall entries,
     get_data payload = JArr entries -> (length entries < 2)%nat) ->
  processTzOnlineData areas payload = Throw (js "Invalid data format").
Proof.
  intros H. unfold processTzOnlineData.
  destruct (truthy payload); [|reflexivity]. cbn [negb].
  destruct (get_data payload) as [| | | | |entries|] eqn:E;
    try (by destruct (negb _)).
  cbn [negb truthy].
  specialize (H entries eq_refl). apply Nat.ltb_lt in H. by rewrite H.
Qed.

Lemma processTzOnlineData_malformed_witness :
  processTzOnlineData example_areas
    (JObj [ (js "data", JArr [ {| zone := 1; time := 200 |} ]) ])
  = Throw (js "Invalid data format")
  /\ processTzOnlineData example_areas (JObj []) = Throw (js "Invalid data format")
  /\ processTzOnlineData example_areas (JObj [ (js "data", JStr (js "x")) ])
     = Throw (js "Invalid data format").
Proof.
  split; [|split]; apply processTzOnlineData_malformed; intros entries.
  - intros [= <-]. simpl. lia.
  - intros [=].
  - intros [=].
Defined.

(** C7. For a well-shaped payload, when the zone id of the first entry
    after sorting is not in the area table the function throws
    "Area info not found for current zone: <id>"; when that one is mapped
    and the zone id of the second entry is not, it throws
    "Area info not found for next zone: <id>".  No string is returned. *)
Theorem processTzOnlineData_unmapped areas payload entries e1 e2 rest :
  get_data payload = JArr entries ->
  (2 <= length entries)%nat ->
  sort_by (fun a b => time a - time b)%Z entries = e1 :: e2 :: rest ->
  (areas !! zone e1 = None ->
   processTzOnlineData areas payload
   = Throw (js "Area info not found for current zone: " ++ of_Z (zone e1)))
  /\ (is_Some (areas !! zone e1) -> areas !! zone e2 = None ->
      processTzOnlineData areas payload
      = Throw (js "Area info not found for next zone: " ++ of_Z (zone e2))).
Proof.
  intros Hd Hlen Hs.
  rewrite (process_well_shaped _ _ _ _ _ _ Hd Hlen Hs). split.
  - by intros ->.
  - by intros [a ->] ->.
Qed.

Lemma processTzOnlineData_unmapped_witness :
  processTzOnlineData example_areas
    (JObj [ (js "data", JArr [ {| zone := 1; time := 200 |};
                               {| zone := 7; time := 100 |} ]) ])
  = Throw (js "Area info not found for current zone: 7")
  /\ processTzOnlineData example_areas
       (JObj [ (js "data", JArr [ {| zone := 9; time := 200 |};
                                  {| zone := 2; time := 100 |} ]) ])
     = Throw (js "Area info not found for next zone: 9").
Proof.
  split.
  - apply (proj1 (processTzOnlineData_unmapped example_areas
             (JObj [ (js "data", JArr [ {| zone := 1; time := 200 |};
                                        {| zone := 7; time := 100 |} ]) ])
             [ {| zone := 1; time := 200 |}; {| zone := 7; time := 100 |} ]
             {| zone := 7; time := 100 |} {| zone := 1; time := 200 |} []
             eq_refl ltac:(simpl; lia) eq_refl)).
    vm_compute. reflexivity.
  - apply (proj2 (processTzOnlineData_unmapped example_areas
             (JObj [ (js "data", JArr [ {| zone := 9; time := 200 |};
                                        {| zone := 2; time := 100 |} ]) ])
             [ {| zone := 9; time := 200 |}; {| zone := 2; time := 100 |} ]
             {| zone := 2; time := 100 |} {| zone := 9; time := 200 |} []
             eq_refl ltac:(simpl; lia) eq_refl)).
    + vm_compute. eexists. reflexivity.
    + vm_compute. reflexivity.
Defined.

End TzClaims.

(** ** [fetchTzOnline]: the cache rule *)

Section FetchClaims.
Import JsStr Eff Tz.

Lemma cache_valid_iff env f : cache_valid env f = true <-> reusable env (mtime f).
Proof.
  unfold cache_valid, isWithin30Minutes, isSameHour, reusable,
    same_calendar_hour.
  rewrite !andb_true_iff, !Z.eqb_eq, Z.ltb_lt. tauto.
Qed.

Lemma fetch_fresh_run env config w :
  trace (snd (fetch_fresh env config w)) = trace w ++ [Fetch (tz_request config)]
  /\ forall r data,
       api env (trace w) (tz_request config) = Responded r ->
       ok r = true -> JSON_parse env (body r) = Return data ->
       fetch_fresh env config w
       = (Return data,
          {| fs := Dir (Some {| mtime := write_time env;
                                content := JSON_stringify env data |});
             trace := trace w ++ [Fetch (tz_request config)] |}).
Proof.
  unfold fetch_fresh, bind, fetch, throw, lift, set_fs, ret. split.
  - destruct (api env (trace w) (tz_request config)) as [m|r]; [reflexivity|].
    destruct (ok r); simpl; [|reflexivity].
    by destruct (JSON_parse env (body r)).
  - intros r data -> Hok ->. by rewrite Hok.
Qed.

(** The request of [fetchTzOnline], field by field. *)
Lemma tz_request_spelled config :
  tz_request config
  = {| req_method := js "GET";
       req_url :=
         match config with
         | Some c =>
           match apiUrl c with
           | Some (u :: rl) => u :: rl
           | _ => js "https://api.d2-trade.com/api/query/tz_online"
           end
         | None => js "https://api.d2-trade.com/api/query/tz_online"
         end;
       req_auth := [];
       req_body := NoBody |}.
Proof.
  unfold tz_request, api_url, default_api_url.
  destruct config as [c|]; [|reflexivity].
  destruct (apiUrl c) as [[|u rl]|]; reflexivity.
Qed.

(** C1, as amended.  With a cache file last written at [T] and a call at
    [now env]: the parsed content of the file is returned, with no request
    and the file untouched, exactly when both instants have the same hour,
    day, month and year and less than 30 minutes lie between them;
    otherwise one request is issued, a GET of [config?.apiUrl] or of the
    default URL, and, when the response is 2xx with a JSON body, the file
    is overwritten with [JSON.stringify(data, null, 2)] of the parsed body
    (not with the text of the response) and the parsed body is returned. *)
Theorem fetchTzOnline_cache_rule env config T text tr :
  let w := {| fs := Dir (Some {| mtime := T; content := text |});
              trace := tr |} in
  let req := tz_request config in
  (reusable env T ->
   fetchTzOnline env config w = (JSON_parse env text, w))
  /\ (~ reusable env T ->
      trace (snd (fetchTzOnline env config w)) = tr ++ [Fetch req]
      /\ forall r data,
           api env tr req = Responded r ->
           (200 <= status r <= 299)%Z ->
           JSON_parse env (body r) = Return data ->
           fetchTzOnline env config w
           = (Return data,
              {| fs := Dir (Some {| mtime := write_time env;
                                    content := JSON_stringify env data |});
                 trace := tr ++ [Fetch req] |}))
  /\ (trace (snd (fetchTzOnline env config w)) = tr <-> reusable env T)
  /\ req = {| req_method := js "GET";
              req_url :=
                match config with
                | Some c =>
                  match apiUrl c with
                  | Some (u :: rl) => u :: rl
                  | _ => js "https://api.d2-trade.com/api/query/tz_online"
                  end
                | None => js "https://api.d2-trade.com/api/query/tz_online"
                end;
              req_auth := [];
              req_body := NoBody |}.
Proof.
  intros w req.
  pose proof (cache_valid_iff env {| mtime := T; content := text |}) as Hv.
  cbn [mtime] in Hv.
  assert (E : fetchTzOnline env config w =
              if cache_valid env {| mtime := T; content := text |}
              then (JSON_parse env text, w) else fetch_fresh env config w).
  { unfold fetchTzOnline, bind, get_fs, ret, lift. simpl.
    by destruct (cache_valid env _). }
  destruct (fetch_fresh_run env config w) as [Htr Hrun]. 
  destruct (cache_valid env _) eqn:Ev; rewrite E.
  - assert (reusable env T) by by apply Hv.
    split; [done|]. split; [done|]. split; [done|].
    apply tz_request_spelled.
  - assert (~ reusable env T) as Hn.
    { intros H. apply Hv in H. discriminate H. }
    split; [done|]. split; [|split; [|apply tz_request_spelled]].
    + intros _. split; [exact Htr|].
      intros r data Hr Hs Hj. apply (Hrun r data Hr); [|exact Hj].
      unfold ok. apply andb_true_iff. split; apply Z.leb_le; lia.
    + split; [|done]. rewrite Htr. simpl. intros H.
      apply (f_equal length) in H. rewrite length_app in H. simpl in H. lia.
Qed.

(** C1 as first stated fails: what reaches the cache file is not the text
    of the response.  The server answers 200 with the body ["{ }"], the
    cache file is half an hour old, and the file written holds ["{}"]. *)
Lemma fetchTzOnline_cache_not_verbatim :
  ~ reusable spaced_env 1700000000000
  /\ api spaced_env [] (tz_request None)
     = Responded {| status := 200; statusText := js "OK";
                    body := js "{ }" |}
  /\ fetchTzOnline spaced_env None
       {| fs := Dir (Some {| mtime := 1700000000000; content := js "{}" |});
          trace := [] |}
     = (Return (JObj []),
        {| fs := Dir (Some {| mtime := 1700003000250;
                              content := js "{}" |});
           trace := [Fetch (tz_request None)] |})
  /\ js "{}" <> js "{ }".
Proof.
  split; [|split; [reflexivity|split]].
  - intros [(Hh & _) _]. vm_compute in Hh. discriminate Hh.
  - vm_compute. reflexivity.
  - vm_compute. discriminate.
Qed.

(** The [d2rtz] command always answers with a string. *)
Lemma d2rtz_action_returns env areas config w :
  exists reply w', d2rtz_action env areas config w = (Return reply, w').
Proof.
  unfold d2rtz_action, try_catch.
  destruct (getTzInfo env areas config w) as [[info|message] w'].
  - by exists info, w'.
  - by eexists _, w'.
Qed.

Lemma fetchTzOnline_cache_rule_witness :
  let w := {| fs := Dir (Some {| mtime := 1700000000000; content := js "{}" |});
              trace := [] |} in
  fetchTzOnline (example_env 1700000600000) None w
  = (Return (JObj []), w)
  /\ fetchTzOnline (example_env 1700003000000) None w
     = (Return (JObj []),
        {| fs := Dir (Some {| mtime := 1700003000250; content := js "{}" |});
           trace := [Fetch (tz_request None)] |}).
Proof.
  intros w. split.
  - apply (proj1 (fetchTzOnline_cache_rule (example_env 1700000600000) None
                    1700000000000 (js "{}") [])).
    vm_compute. repeat split.
  - assert (Hn : ~ reusable (example_env 1700003000000) 1700000000000).
    { intros [(Hh & _) _]. vm_compute in Hh. discriminate Hh. }
    apply (proj2 (proj1 (proj2 (fetchTzOnline_cache_rule
             (example_env 1700003000000) None 1700000000000 (js "{}") []))
             Hn)
             {| status := 200; statusText := js "OK"; body := js "{}" |}
             (JObj [])).
    + reflexivity.
    + simpl. lia.
    + reflexivity.
Defined.

End FetchClaims.

(** ** OCR and AI calls: failures and mock mode *)

Section BotClaims.
Import JsStr Eff Ocr Bot.

Lemma after_after w l1 l2 : after (after w l1) l2 = after w (l1 ++ l2).
Proof. unfold after. simpl. by rewrite app_assoc. Qed.

Lemma recognizeImage_failed env config imageUrl w :
  mockMode config = false ->
  failed (net env (trace w ++ [ocr_start imageUrl])
            (ocr_request config imageUrl)) ->
  exists e,
    recognizeImage env config imageUrl w
    = (Return (ocr_failure e),
       after w [ocr_start imageUrl; Fetch (ocr_request config imageUrl)])
    /\ e <> [].
Proof.
  intros Hm Hf. unfold recognizeImage. rewrite Hm.
  unfold bind, emit, try_catch, fetch, ret, after. simpl.
  fold (ocr_start imageUrl).
  destruct (net env _ _) as [m|r]; simpl in Hf.
  - eexists. split; [by rewrite <- app_assoc|]. vm_compute. discriminate.
  - rewrite Hf. simpl. eexists. split; [by rewrite <- app_assoc|].
    vm_compute. discriminate.
Qed.

Lemma analyzeItem_failed env config ocrText w :
  mockMode config = false ->
  failed (net env (trace w ++ ai_start ocrText) (ai_call env config ocrText)) ->
  exists e,
    analyzeItem env config (VStr ocrText) w
    = (Return (ai_failure e),
       after w (ai_start ocrText ++ [Fetch (ai_call env config ocrText)]))
    /\ e <> [].
Proof.
  intros Hm Hf. unfold analyzeItem. rewrite Hm.
  unfold bind, emit, try_catch, fetch, ret, after. simpl.
  unfold ai_call, ai_start in *. rewrite <- !app_assoc. simpl.
  destruct (net env _ _) as [m|r]; simpl in Hf.
  - eexists. split; [reflexivity|]. vm_compute. discriminate.
  - rewrite Hf. simpl. eexists. split; [reflexivity|].
    vm_compute. discriminate.
Qed.

Lemma bind_emit {A} (e : event) (k : M A) w :
  (emit e ;;; k) w = k (after w [e]).
Proof. reflexivity. Qed.

Lemma bind_run {A B} (m : M A) (k : A -> M B) w :
  (x <- m ;; k x) w =
  match m w with
  | (Return a, w') => k a w'
  | (Throw e, w') => (Throw e, w')
  end.
Proof. reflexivity. Qed.

Lemma fetch_run (net : list event -> Request -> FetchResult) req w :
  fetch net req w =
  match net (trace w) req with
  | NetworkError m => (Throw m, after w [Fetch req])
  | Responded r => (Return r, after w [Fetch req])
  end.
Proof. reflexivity. Qed.

Lemma recognizeImage_ok env config imageUrl w r content :
  mockMode config = false ->
  net env (trace w ++ [ocr_start imageUrl]) (ocr_request config imageUrl)
  = Responded r ->
  ok r = true -> read_content env (body r) = Return content ->
  recognizeImage env config imageUrl w
  = (Return {| ocr_success := true;
               ocr_text := Some (or_else content ocr_fallback);
               ocr_error := None |},
     after w [ocr_start imageUrl; Fetch (ocr_request config imageUrl);
              Log (js "OCR识别结果: " ++ show_result env (body r))]).
Proof.
  intros Hm Hr Hok Hj. unfold recognizeImage. rewrite Hm.
  fold (ocr_start imageUrl). rewrite bind_emit.
  unfold try_catch. rewrite bind_run, fetch_run.
  cbn [trace after]. rewrite Hr, Hok. cbn [negb].
  rewrite bind_run. unfold lift. rewrite Hj, bind_emit.
  unfold ret, ocr_fallback. do 2 rewrite after_after. reflexivity.
Qed.

(** C8. With mock mode off, a rejected [fetch] or a non-2xx response in
    the OCR call or in the AI call does not make [recognizeImage] or
    [analyzeItem] throw: each returns [{success: false, error: e}] with a
    non-empty [e], and the command handler returns the failure string
    built from [e]. *)
Theorem calls_fail_softly env config :
  mockMode config = false ->
  (forall imageUrl w,
     failed (net env (trace w ++ [ocr_start imageUrl])
               (ocr_request config imageUrl)) ->
     exists e w',
       recognizeImage env config imageUrl w
       = (Return {| ocr_success := false; ocr_text := None;
                    ocr_error := Some e |}, w')
       /\ e <> [])
  /\ (forall ocrText w,
        failed (net env (trace w ++ ai_start ocrText)
                  (ai_call env config ocrText)) ->
        exists e w',
          analyzeItem env config (VStr ocrText) w
          = (Return {| success := false; analysis := None;
                       error := Some e |}, w')
          /\ e <> [])
  /\ (forall image src w,
        testMode config = false ->
        failed (net env (trace w ++ [link src; ocr_start src])
                  (ocr_request config src)) ->
        exists e w',
          appraise env config image (Some src) w
          = (Return (Some (VStr (js "装备属性识别失败: " ++ e))), w')
          /\ e <> [])
  /\ (forall text src w,
        testMode config = true ->
        failed (net env (trace w ++ test_note :: ai_start text)
                  (ai_call env config text)) ->
        exists e w',
          appraise env config (Some text) src w
          = (Return (Some (VStr (js "装备价值分析失败: " ++ e))), w')
          /\ e <> [])
  /\ (forall image src w r content text,
        testMode config = false ->
        net env (trace w ++ [link src; ocr_start src])
          (ocr_request config src) = Responded r ->
        ok r = true -> read_content env (body r) = Return content ->
        or_else content ocr_fallback = VStr text ->
        failed (net env
                  (trace w ++
                   [link src; ocr_start src; Fetch (ocr_request config src);
                    Log (js "OCR识别结果: " ++ show_result env (body r))]
                   ++ ai_start text)
                  (ai_call env config text)) ->
        exists e w',
          appraise env config image (Some src) w
          = (Return (Some (VStr (js "装备价值分析失败: " ++ e))), w')
          /\ e <> []).
Proof.
  intros Hm. split; [|split; [|split; [|split]]].
  - intros imageUrl w Hf.
    destruct (recognizeImage_failed env config imageUrl w Hm Hf)
      as (e & E & He).
    by exists e, (after w [ocr_start imageUrl;
                           Fetch (ocr_request config imageUrl)]).
  - intros ocrText w Hf.
    destruct (analyzeItem_failed env config ocrText w Hm Hf) as (e & E & He).
    by exists e, (after w (ai_start ocrText ++
                           [Fetch (ai_call env config ocrText)])).
  - intros image src w Ht Hf.
    destruct (recognizeImage_failed env config src (after w [link src]) Hm)
      as (e & E & He).
    { cbn [after trace]. rewrite <- app_assoc. exact Hf. }
    exists e. eexists. split; [|exact He].
    unfold appraise. rewrite Ht. fold (link src).
    rewrite bind_emit, bind_run, E. reflexivity.
  - intros text src w Ht Hf.
    destruct (analyzeItem_failed env config text (after w [test_note]) Hm)
      as (e & E & He).
    { cbn [after trace]. rewrite <- app_assoc. exact Hf. }
    exists e. eexists. split; [|exact He].
    unfold appraise. rewrite Ht. fold test_note.
    rewrite bind_emit, bind_run, E. reflexivity.
  - intros image src w r content text Ht Hr Hok Hj Hor Hf.
    assert (Hr' : net env (trace (after w [link src]) ++ [ocr_start src])
                    (ocr_request config src) = Responded r).
    { cbn [after trace]. rewrite <- app_assoc. exact Hr. }
    pose proof (recognizeImage_ok env config src (after w [link src])
                  r content Hm Hr' Hok Hj) as E1.
    rewrite after_after in E1. cbn [app] in E1.
    destruct (analyzeItem_failed env config text
                (after w [link src; ocr_start src;
                          Fetch (ocr_request config src);
                          Log (js "OCR识别结果: " ++ show_result env (body r))])
                Hm) as (e & E & He).
    { cbn [after trace]. rewrite <- app_assoc. exact Hf. }
    exists e. eexists. split; [|exact He].
    unfold appraise. rewrite Ht. fold (link src).
    rewrite bind_emit, bind_run, E1. cbn [ocr_success negb ocr_text field].
    rewrite Hor, bind_run, E. reflexivity.
Qed.

Lemma calls_fail_softly_witness :
  (exists e w',
     recognizeImage offline_env (example_config false false) (js "http://img")
       {| fs := NoDir; trace := [] |}
     = (Return {| ocr_success := false; ocr_text := None;
                  ocr_error := Some e |}, w') /\ e <> [])
  /\ (exists e w',
        appraise failing_env (example_config false true) (Some (js "力量 +15"))
          None {| fs := NoDir; trace := [] |}
        = (Return (Some (VStr (js "装备价值分析失败: " ++ e))), w')
        /\ e <> []).
Proof.
  split.
  - apply (proj1 (calls_fail_softly offline_env (example_config false false)
                    eq_refl) (js "http://img") {| fs := NoDir; trace := [] |}).
    exact I.
  - apply (proj1 (proj2 (proj2 (proj2
             (calls_fail_softly failing_env (example_config false true)
                eq_refl)))) (js "力量 +15") None {| fs := NoDir; trace := [] |}).
    + reflexivity.
    + reflexivity.
Defined.

(** C9. With mock mode on, [recognizeImage] and [analyzeItem] issue no
    request: they log, wait, and return [{success: true}] with a fixed
    text, whatever the image URL or the OCR text (of whatever kind the
    latter is). *)
Theorem mock_mode_is_canned env config :
  mockMode config = true ->
  (forall imageUrl w,
     recognizeImage env config imageUrl w
     = (Return {| ocr_success := true; ocr_text := Some (VStr mock_ocr_text);
                  ocr_error := None |},
        after w [ocr_start imageUrl; Log (js "使用Mock模式进行OCR识别");
                 Sleep 1000]))
  /\ (forall ocrText w,
        analyzeItem env config ocrText w
        = (Return {| success := true; analysis := Some (VStr mock_analysis);
                     error := None |},
           after w [Log (js "开始AI分析装备: " ++ show ocrText);
                    Log (js "使用Mock模式进行AI分析"); Sleep 1500]))
  /\ (forall url1 url2 w1 w2,
        fst (recognizeImage env config url1 w1)
        = fst (recognizeImage env config url2 w2))
  /\ (forall text1 text2 w1 w2,
        fst (analyzeItem env config text1 w1)
        = fst (analyzeItem env config text2 w2)).
Proof.
  intros Hm.
  assert (H1 : forall imageUrl w,
     recognizeImage env config imageUrl w
     = (Return {| ocr_success := true; ocr_text := Some (VStr mock_ocr_text);
                  ocr_error := None |},
        after w [ocr_start imageUrl; Log (js "使用Mock模式进行OCR识别");
                 Sleep 1000])).
  { intros imageUrl w. unfold recognizeImage. rewrite Hm.
    unfold bind, emit, ret, after. simpl. by rewrite <- !app_assoc. }
  assert (H2 : forall ocrText w,
        analyzeItem env config ocrText w
        = (Return {| success := true; analysis := Some (VStr mock_analysis);
                     error := None |},
           after w [Log (js "开始AI分析装备: " ++ show ocrText);
                    Log (js "使用Mock模式进行AI分析"); Sleep 1500])).
  { intros ocrText w. unfold analyzeItem. rewrite Hm.
    unfold bind, emit, ret, after. cbn [fst snd fs trace].
    by rewrite <- !app_assoc. }
  split; [exact H1|]. split; [exact H2|]. split.
  - intros. by rewrite !H1.
  - intros. by rewrite !H2.
Qed.

Lemma mock_mode_is_canned_witness :
  recognizeImage offline_env (example_config true false) (js "http://img")
    {| fs := NoDir; trace := [] |}
  = (Return {| ocr_success := true; ocr_text := Some (VStr mock_ocr_text);
               ocr_error := None |},
     after {| fs := NoDir; trace := [] |}
       [ocr_start (js "http://img"); Log (js "使用Mock模式进行OCR识别");
        Sleep 1000]).
Proof.
  apply (proj1 (mock_mode_is_canned offline_env (example_config true false)
                  eq_refl) (js "http://img") {| fs := NoDir; trace := [] |}).
Defined.

End BotClaims.

(** ** More on [preprocessOcrText] *)

Section OcrMore.
Import JsStr Regex Ocr.

Lemma replaceAll_sublist r s : sublist (replaceAll r [] s) s.
Proof. eapply del_sublist, replaceAll_del. Qed.

Lemma trim_sublist s : sublist (trim s) s.
Proof.
  destruct (trim_split s) as (a & b & E & _). rewrite E at 2.
  apply sublist_inserts_l, sublist_inserts_r. reflexivity.
Qed.

Lemma clean_sublist s : sublist (clean s) s.
Proof.
  unfold clean. rewrite js_nl.
  etrans; [apply trim_sublist|].
  etrans; [eapply del_sublist, blank_del|].
  do 5 (etrans; [apply replaceAll_sublist|]). reflexivity.
Qed.

(** The result of [preprocessOcrText] satisfies the invariants of the
    cleaned text. *)
Lemma preprocess_cleaned s : cleaned (preprocessOcrText s).
Proof.
  pose proof (clean_cleaned s) as Hc.
  destruct (find_level_cases (split 10 (clean s)))
    as [Hn|(A & l & B & E & HA & Hl)].
  - by rewrite (preprocess_none s Hn).
  - rewrite (preprocess_found s A l B E HA Hl).
    pose proof (line_cut_cleaned _ _ (kept_lines_del s A l B E) Hc) as Hc'.
    by rewrite (trim_id _ (cl_trimmed _ Hc')).
Qed.

(** The lines of the result, when a level-requirement line exists. *)
Lemma preprocess_found_lines s A l B :
  split 10 (clean s) = A ++ l :: B ->
  Forall plain A -> is_level_line l = true ->
  preprocessOcrText s = join [10] (take (min 3 (length A)) A ++ l :: B)
  /\ split 10 (preprocessOcrText s) = take (min 3 (length A)) A ++ l :: B.
Proof.
  intros E HA Hl.
  pose proof (line_cut_cleaned _ _ (kept_lines_del s A l B E)
                (clean_cleaned s)) as Hc'.
  rewrite (preprocess_found s A l B E HA Hl).
  rewrite (trim_id _ (cl_trimmed _ Hc')). split; [reflexivity|].
  by apply (kept_lines_split s).
Qed.

(** X1. [preprocessOcrText] only deletes: its result is a subsequence of
    the input, for every input. *)
Theorem preprocessOcrText_only_deletes (s : str) :
  sublist (preprocessOcrText s) s.
Proof.
  destruct (find_level_cases (split 10 (clean s)))
    as [Hn|(A & l & B & E & HA & Hl)].
  - rewrite (preprocess_none s Hn). apply clean_sublist.
  - rewrite (proj1 (preprocess_found_lines s A l B E HA Hl)).
    etrans; [eapply del_sublist, (kept_lines_del s A l B E)|].
    apply clean_sublist.
Qed.

(** X2. In the result none of the six patterns matches at any position,
    and the result has no white space at either end. *)
Theorem preprocessOcrText_output_clean (s : str) :
  let out := preprocessOcrText s in
  (forall r, r ∈ [re_bracket; re_numeric_tag; re_corner; re_suffix_note;
                  re_prefix_note; re_blank_lines] ->
     forall t, suffix t out -> match_at r t = None)
  /\ trim out = out.
Proof.
  intros out. destruct (preprocess_cleaned s) as [H1 H3 H4 H6 Ht].
  split; [|by apply trim_id].
  intros r Hr.
  repeat (apply elem_of_cons in Hr as [->|Hr]);
    [exact H1 | by apply numeric_stable | exact H3 | exact H4
     | by apply prefix_note_stable | exact H6 | by apply elem_of_nil in Hr].
Qed.

(** X3. The level-requirement line of the result, if any, is at index
    [min 3 i] where [i] is its index in the cleaned text: at most three
    lines precede it. *)
Theorem preprocessOcrText_level_index (s : str) :
  find_level (split 10 (preprocessOcrText s)) 0
  = Z.min 3 (find_level (split 10 (clean s)) 0).
Proof.
  destruct (find_level_cases (split 10 (clean s)))
    as [Hn|(A & l & B & E & HA & Hl)].
  - rewrite (preprocess_none s Hn), (find_level_none _ _ Hn). reflexivity.
  - rewrite (proj2 (preprocess_found_lines s A l B E HA Hl)), E.
    rewrite !find_level_found by (try apply Forall_take; assumption).
    rewrite length_take. lia.
Qed.

(** X4. When the first level-requirement line of the cleaned text is at
    index [i], the lines of the result are exactly the first [min 3 i]
    lines and the lines from [i] on, unchanged: the final [trim] removes
    nothing. *)
Theorem preprocessOcrText_lines (s : str) (i : nat) (l : str) :
  let lines := split 10 (clean s) in
  lines !! i = Some l ->
  is_level_line l = true ->
  Forall (fun l' => is_level_line l' = false) (take i lines) ->
  split 10 (preprocessOcrText s) = take (min 3 i) lines ++ drop i lines
  /\ preprocessOcrText s
     = join (js "\n") (take (min 3 i) lines ++ drop i lines).
Proof.
  intros lines Hi Hl Hbefore.
  pose proof (lookup_lt_Some _ _ _ Hi) as Hlt.
  pose proof (take_drop_middle _ _ _ Hi) as E. symmetry in E.
  destruct (preprocess_found_lines s _ _ _ E Hbefore Hl) as [H1 H2].
  rewrite length_take, take_take in H1, H2.
  replace (min (min 3 (min i (length lines))) i) with (min 3 i) in H1, H2
    by lia.
  rewrite <- (drop_S _ _ _ Hi) in H1, H2. by rewrite js_nl.
Qed.

Lemma preprocessOcrText_lines_witness :
  split 10 (preprocessOcrText
              (js " 短剑\n[蓝色]\n单手伤害\n耐久度\n数量: 1\n\n需要等級 12\n+3 力量 "))
  = [js "短剑"; js "单手伤害"; js "耐久度"; js "需要等級 12"; js "+3 力量"].
Proof.
  etrans.
  - apply (proj1 (preprocessOcrText_lines
             (js " 短剑\n[蓝色]\n单手伤害\n耐久度\n数量: 1\n\n需要等級 12\n+3 力量 ")
             4%nat (js "需要等級 12") ltac:(vm_compute; reflexivity)
             ltac:(vm_compute; reflexivity)
             ltac:(vm_compute; repeat constructor))).
  - vm_compute. reflexivity.
Defined.

Lemma star_ws_hits w rest :
  Forall (fun c => is_ws c = true) w ->
  star is_ws (expect 10) (w ++ 10 :: rest) <> None.
Proof.
  induction 1 as [|c w Hc Hw IH]; simpl.
  - by destruct (star is_ws (expect 10) rest).
  - rewrite Hc. by destruct (star is_ws (expect 10) (w ++ 10 :: rest)).
Qed.

Lemma solid_cons c l : solid l -> solid (c :: l).
Proof. intros (x & Hx & Hw). exists x. split; [by right | exact Hw]. Qed.

Lemma first_line_solid s :
  s <> [] -> head_ok (rev s) -> no_blank s ->
  forall l ls, split 10 s = l :: ls -> solid l.
Proof.
  induction s as [|c s IH]; [done|]. intros _ Hlast Hnb l ls.
  unfold no_blank in *. simpl in Hnb. simpl split.
  destruct (N.eqb_spec c 10) as [->|Hne].
  - exfalso. change (is_ws 10) with true in Hnb. cbv iota in Hnb.
    destruct (star is_ws (expect 10) s); discriminate Hnb.
  - pose proof (split_nonempty 10 s) as Hs.
    destruct (split 10 s) as [|l' ls'] eqn:E; [done|].
    intros [= <- <-]. destruct (is_ws c) eqn:Ec.
    + destruct s as [|a s].
      { simpl in Hlast. congruence. }
      apply solid_cons. apply (IH ltac:(done)) with ls'; [| |reflexivity].
      * by apply head_ok_rev_cons in Hlast.
      * by destruct (star is_ws (expect 10) (a :: s)).
    + exists c. split; [left | exact Ec].
Qed.

Lemma later_lines_solid s :
  s <> [] -> head_ok (rev s) -> stable re_blank_lines s ->
  forall l ls, split 10 s = l :: ls -> Forall solid ls.
Proof.
  induction s as [|c s IH]; [done|]. intros _ Hlast Hst l ls.
  apply stable_cons in Hst as [Hc Hst]. simpl split.
  destruct s as [|a s].
  - simpl. destruct (N.eqb_spec c 10) as [->|Hne].
    + simpl in Hlast. discriminate Hlast.
    + intros [= <- <-]. constructor.
  - apply head_ok_rev_cons in Hlast; [|done].
    specialize (IH ltac:(done) Hlast Hst).
    pose proof (split_nonempty 10 (a :: s)) as Hs.
    destruct (split 10 (a :: s)) as [|l' ls'] eqn:E; [done|].
    specialize (IH l' ls' eq_refl).
    destruct (N.eqb_spec c 10) as [->|Hne].
    + intros [= <- <-]. constructor; [|exact IH].
      rewrite blank_cons in Hc. change (10 =? 10) with true in Hc.
      by apply (first_line_solid (a :: s)) with ls'.
    + by intros [= <- <-].
Qed.

(** X5. Unless it is empty, the result has no empty line and no line of
    white space only. *)
Theorem preprocessOcrText_no_blank_line (s : str) :
  preprocessOcrText s <> [] ->
  Forall (fun l => exists c, c ∈ l /\ is_ws c = false)
         (split 10 (preprocessOcrText s)).
Proof.
  intros Hne. destruct (preprocess_cleaned s) as [_ _ _ H6 [Hh Hl]].
  pose proof (split_nonempty 10 (preprocessOcrText s)) as Hs.
  destruct (split 10 (preprocessOcrText s)) as [|l ls] eqn:E; [done|].
  constructor.
  - destruct (preprocessOcrText s) as [|c out]; [done|].
    simpl in Hh. simpl in E.
    destruct (N.eqb_spec c 10) as [->|_]; [discriminate Hh|].
    destruct (split 10 out) as [|l' ls']; injection E as <- <-;
      (exists c; split; [left | exact Hh]).
  - by apply (later_lines_solid (preprocessOcrText s)) with l.
Qed.

Lemma preprocessOcrText_no_blank_line_witness :
  Forall (fun l => exists c, c ∈ l /\ is_ws c = false)
         (split 10 (preprocessOcrText (js "力量 +1\n \n\n[x]\n敏捷 +2\n"))).
Proof.
  apply preprocessOcrText_no_blank_line. vm_compute. discriminate.
Defined.

(** X25. What is left of the annotations in the result: every "[" opens
    "[ETH]" or has no "]" after it, no "『" has a "』" after it, and "缀" is
    never followed by a colon. *)
Theorem preprocessOcrText_no_annotations (s : str) :
  let out := preprocessOcrText s in
  (forall a b, out = a ++ 91 :: b ->
     starts_with (js "ETH]") b = true \/ 93 ∉ b)
  /\ (forall a b, out = a ++ 12302 :: b -> 12303 ∉ b)
  /\ (forall a x b, out = a ++ 32512 :: x :: b -> is_colon x = false).
Proof.
  intros out. destruct (preprocess_cleaned s) as [H1 H3 H4 _ _].
  fold out in H1, H3, H4. split; [|split].
  - intros a b E. rewrite js_eth. apply bracket_none, H1. by exists a.
  - intros a b E. apply (expect_drop_none 12303).
    pose proof (corner_cons 12302 b) as Hc.
    change (12302 =? 12302) with true in Hc. cbv iota in Hc.
    rewrite <- Hc. apply H3. by exists a.
  - intros a x b E.
    apply (proj1 (suffix_note_none (x :: b))), H4. by exists a.
Qed.

End OcrMore.

(** ** More on the area table and [processTzOnlineData] *)

Section TzMore.
Import JsStr Eff Tz.

Lemma build_areas_snoc raw a :
  build_areas (raw ++ [a]) = <[id a := info_of a]> (build_areas raw).
Proof. unfold build_areas. by rewrite foldl_app. Qed.

Lemma build_areas_is_Some raw k :
  is_Some (build_areas raw !! k) <-> k ∈ map id raw.
Proof.
  induction raw as [|a raw IH] using rev_ind.
  - unfold build_areas. simpl. rewrite lookup_empty, elem_of_nil.
    split; [by intros [? ?] | done].
  - rewrite build_areas_snoc, map_app, elem_of_app, lookup_insert_is_Some'.
    simpl. rewrite list_elem_of_singleton, IH. intuition congruence.
Qed.

Lemma build_areas_later raw a rest :
  id a ∉ map id rest ->
  build_areas (raw ++ a :: rest) !! id a = Some (info_of a).
Proof.
  induction rest as [|b rest IH] using rev_ind; intros Hn.
  - rewrite build_areas_snoc. apply lookup_insert_eq.
  - rewrite map_app, not_elem_of_app in Hn. destruct Hn as [Hn Hb].
    simpl in Hb. rewrite not_elem_of_cons in Hb. destruct Hb as [Hb _].
    change (raw ++ a :: rest ++ [b]) with (raw ++ (a :: rest) ++ [b]).
    rewrite app_assoc, build_areas_snoc, lookup_insert_ne by done.
    by apply IH.
Qed.

(** X6. The area table maps exactly the ids of the data set; for an id
    that occurs more than once the last record is the one kept. *)
Theorem build_areas_lookup :
  (forall raw k, is_Some (build_areas raw !! k) <-> k ∈ map id raw)
  /\ (forall raw a rest,
        id a ∉ map id rest ->
        build_areas (raw ++ a :: rest) !! id a
        = Some {| name := name_zh_cn a; tier := tier_loot a |}).
Proof. split; [apply build_areas_is_Some | apply build_areas_later]. Qed.

Lemma build_areas_lookup_witness :
  build_areas
    ([ {| id := 5; name_zh_cn := js "A"; tier_loot := js "X" |} ]
     ++ {| id := 5; name_zh_cn := js "B"; tier_loot := js "Y" |}
     :: [ {| id := 6; name_zh_cn := js "C"; tier_loot := js "Z" |} ]) !! 5%Z
  = Some {| name := js "B"; tier := js "Y" |}.
Proof.
  apply (proj2 build_areas_lookup
           [ {| id := 5; name_zh_cn := js "A"; tier_loot := js "X" |} ]
           {| id := 5; name_zh_cn := js "B"; tier_loot := js "Y" |}
           [ {| id := 6; name_zh_cn := js "C"; tier_loot := js "Z" |} ]).
  simpl. rewrite not_elem_of_cons. split; [done | apply not_elem_of_nil].
Defined.

(** The function on any payload whose [data] is an array. *)
Lemma process_array areas payload entries :
  get_data payload = JArr entries ->
  processTzOnlineData areas payload =
  if (length entries <? 2)%nat then Throw invalid_format
  else
    match sort_by by_time entries with
    | e1 :: e2 :: _ =>
      match areas !! zone e1, areas !! zone e2 with
      | None, _ =>
        Throw (js "Area info not found for current zone: " ++ of_Z (zone e1))
      | Some _, None =>
        Throw (js "Area info not found for next zone: " ++ of_Z (zone e2))
      | Some a1, Some a2 => Return (format_message a1 a2)
      end
    | _ => Throw (js "Cannot read properties of undefined")
    end.
Proof.
  intros Hd. unfold processTzOnlineData.
  rewrite (get_data_arr_truthy _ _ Hd), Hd. reflexivity.
Qed.

(** Two ascending arrangements of the same entries with distinct times
    are the same list. *)
Lemma sorted_perm_unique l1 : forall l2,
  StronglySorted time_le l1 -> StronglySorted time_le l2 ->
  Permutation l1 l2 -> NoDup (map time l1) -> l1 = l2.
Proof.
  induction l1 as [|x l1 IH]; intros l2 H1 H2 Hp Hn.
  - by apply Permutation_nil in Hp.
  - destruct l2 as [|y l2].
    { symmetry in Hp. by apply Permutation_nil in Hp. }
    apply StronglySorted_inv in H1 as [H1 Hx].
    apply StronglySorted_inv in H2 as [H2 Hy].
    simpl in Hn. apply NoDup_cons in Hn as [Hnx Hn].
    assert (Hyin : y ∈ x :: l1) by (rewrite Hp; left).
    assert (Hxin : x ∈ y :: l2) by (rewrite <- Hp; left).
    assert (E : y = x).
    { apply elem_of_cons in Hyin as [E|Hyin]; [exact E|].
      apply elem_of_cons in Hxin as [E|Hxin]; [by symmetry|].
      rewrite Forall_forall in Hx, Hy.
      pose proof (Hx y Hyin) as Hxy.
      pose proof (Hy x Hxin) as Hyx.
      unfold time_le in *. exfalso. apply Hnx.
      replace (time x) with (time y) by lia.
      by apply (list_elem_of_fmap_2 time). }
    subst y. f_equal. apply IH; try assumption.
    by apply Permutation_cons_inv in Hp.
Qed.

(** X7. The order in which the payload lists its entries does not matter
    when their times are distinct. *)
Theorem processTzOnlineData_order_irrelevant areas p p' entries entries' :
  get_data p = JArr entries ->
  get_data p' = JArr entries' ->
  Permutation entries entries' ->
  NoDup (map time entries) ->
  processTzOnlineData areas p = processTzOnlineData areas p'.
Proof.
  intros Hp Hp' Hperm Hn.
  rewrite (process_array _ _ _ Hp), (process_array _ _ _ Hp').
  rewrite <- (Permutation_length Hperm).
  replace (sort_by by_time entries') with (sort_by by_time entries);
    [reflexivity|].
  apply sorted_perm_unique; try apply sort_by_sorted.
  - by rewrite !sort_by_perm.
  - by rewrite (Permutation_map time (sort_by_perm entries)).
Qed.

Lemma processTzOnlineData_order_irrelevant_witness :
  processTzOnlineData example_areas example_payload
  = processTzOnlineData example_areas
      (JObj [ (js "data", JArr [ {| zone := 2; time := 100 |};
                                 {| zone := 1; time := 200 |} ]) ]).
Proof.
  apply (processTzOnlineData_order_irrelevant example_areas
           example_payload
           (JObj [ (js "data", JArr [ {| zone := 2; time := 100 |};
                                      {| zone := 1; time := 200 |} ]) ])
           [ {| zone := 1; time := 200 |}; {| zone := 2; time := 100 |} ]
           [ {| zone := 2; time := 100 |}; {| zone := 1; time := 200 |} ]
           eq_refl eq_refl).
  - apply perm_swap.
  - simpl. apply NoDup_cons. split; [|apply NoDup_singleton].
    rewrite not_elem_of_cons. split; [done | apply not_elem_of_nil].
Defined.

(** X8. On a payload with two or more entries the function looks at two
    entries only: one with the smallest time and one with the smallest
    time among the others.  When the zone id of the first is unmapped the
    current-zone error is thrown, whatever the second; the other entries
    are never looked up. *)
Theorem processTzOnlineData_soonest_two areas payload entries :
  get_data payload = JArr entries ->
  (2 <= length entries)%nat ->
  exists e1 e2 rest,
    Permutation entries (e1 :: e2 :: rest)
    /\ (time e1 <= time e2)%Z
    /\ Forall (fun e => time e2 <= time e)%Z rest
    /\ processTzOnlineData areas payload =
       match areas !! zone e1, areas !! zone e2 with
       | None, _ =>
         Throw (js "Area info not found for current zone: "
                ++ of_Z (zone e1))
       | Some _, None =>
         Throw (js "Area info not found for next zone: " ++ of_Z (zone e2))
       | Some a1, Some a2 =>
         Return (js "TZ：" ++ name a1 ++ js "，掉落：" ++ tier a1
                 ++ js "\n" ++ js "Next：" ++ name a2 ++ js "，掉落："
                 ++ tier a2)
       end.
Proof.
  intros Hd Hlen. pose proof (sort_by_length entries) as Hl.
  pose proof (sort_by_sorted entries) as Hs.
  pose proof (sort_by_perm entries) as Hp.
  destruct (sort_by by_time entries) as [|e1 [|e2 rest]] eqn:E;
    [simpl in Hl; lia | simpl in Hl; lia |].
  exists e1, e2, rest.
  apply StronglySorted_inv in Hs as [Hs H1].
  apply StronglySorted_inv in Hs as [_ H2].
  split; [by symmetry|]. split; [by inversion H1|]. split; [exact H2|].
  by rewrite (process_well_shaped _ _ _ _ _ _ Hd Hlen E).
Qed.

Lemma processTzOnlineData_soonest_two_witness :
  exists e1 e2 rest,
    Permutation [ {| zone := 1; time := 200 |}; {| zone := 2; time := 100 |} ]
                (e1 :: e2 :: rest)
    /\ (time e1 <= time e2)%Z
    /\ Forall (fun e => time e2 <= time e)%Z rest
    /\ processTzOnlineData example_areas example_payload =
       match example_areas !! zone e1, example_areas !! zone e2 with
       | None, _ =>
         Throw (js "Area info not found for current zone: "
                ++ of_Z (zone e1))
       | Some _, None =>
         Throw (js "Area info not found for next zone: " ++ of_Z (zone e2))
       | Some a1, Some a2 =>
         Return (js "TZ：" ++ name a1 ++ js "，掉落：" ++ tier a1
                 ++ js "\n" ++ js "Next：" ++ name a2 ++ js "，掉落："
                 ++ tier a2)
       end.
Proof.
  apply (processTzOnlineData_soonest_two example_areas example_payload
           [ {| zone := 1; time := 200 |}; {| zone := 2; time := 100 |} ]).
  - reflexivity.
  - simpl. lia.
Defined.

(** With equal times the listed order decides (the sort is stable). *)
Example order_matters_on_ties :
  processTzOnlineData example_areas
    (JObj [ (js "data", JArr [ {| zone := 1; time := 100 |};
                               {| zone := 2; time := 100 |} ]) ])
  = Return (js "TZ：A，掉落：X\nNext：B，掉落：Y")
  /\ processTzOnlineData example_areas
       (JObj [ (js "data", JArr [ {| zone := 2; time := 100 |};
                                  {| zone := 1; time := 100 |} ]) ])
     = Return (js "TZ：B，掉落：Y\nNext：A，掉落：X").
Proof. split; vm_compute; reflexivity. Qed.

End TzMore.

(** ** More on [fetchTzOnline], [getTzInfo] and the [d2rtz] command *)

Section FetchMore.
Import JsStr Eff Tz.

(** The call, by the state of the cache. *)
Lemma fetchTzOnline_run env config w :
  fetchTzOnline env config w =
  let w0 := {| fs := ensure_dir (fs w); trace := trace w |} in
  match cache_file (fs w) with
  | Some f =>
    if cache_valid env f then (JSON_parse env (content f), w0)
    else fetch_fresh env config w0
  | None => fetch_fresh env config w0
  end.
Proof.
  destruct w as [[|[f|]] tr]; unfold fetchTzOnline, bind, get_fs, set_fs,
    ret, lift; simpl; try reflexivity.
  by destruct (cache_valid env f).
Qed.

(** The refresh, by what the server does. *)
Lemma fetch_fresh_cases env config w :
  let w1 := {| fs := fs w;
               trace := trace w ++ [Fetch (tz_request config)] |} in
  fetch_fresh env config w =
  match api env (trace w) (tz_request config) with
  | NetworkError m => (Throw m, w1)
  | Responded r =>
    if ok r then
      match JSON_parse env (body r) with
      | Return data =>
        (Return data,
         {| fs := Dir (Some {| mtime := write_time env;
                               content := JSON_stringify env data |});
            trace := trace w ++ [Fetch (tz_request config)] |})
      | Throw m => (Throw m, w1)
      end
    else (Throw (js "HTTP error! status: " ++ of_Z (status r)), w1)
  end.
Proof.
  unfold fetch_fresh, bind, fetch, throw, lift, set_fs, ret.
  destruct (api env (trace w) (tz_request config)) as [m|r]; [reflexivity|].
  destruct (ok r); simpl; [|reflexivity].
  by destruct (JSON_parse env (body r)).
Qed.

(** X9. Without a reusable cache file, a failed refresh throws and leaves
    the cache file as it was: the message of the network error, "HTTP
    error! status: <status>" for a non-2xx response, or the parse error of
    a 2xx body that is not JSON.  Only the directory may have been
    created. *)
Theorem fetchTzOnline_failed_refresh env config w :
  (forall f, cache_file (fs w) = Some f -> cache_valid env f = false) ->
  let req := tz_request config in
  let w' := {| fs := ensure_dir (fs w); trace := trace w ++ [Fetch req] |} in
  (forall m, api env (trace w) req = NetworkError m ->
     fetchTzOnline env config w = (Throw m, w'))
  /\ (forall r, api env (trace w) req = Responded r -> ok r = false ->
        fetchTzOnline env config w
        = (Throw (js "HTTP error! status: " ++ of_Z (status r)), w'))
  /\ (forall r m, api env (trace w) req = Responded r -> ok r = true ->
        JSON_parse env (body r) = Throw m ->
        fetchTzOnline env config w = (Throw m, w')).
Proof.
  intros Hc req w'.
  assert (E : fetchTzOnline env config w =
              fetch_fresh env config
                {| fs := ensure_dir (fs w); trace := trace w |}).
  { rewrite fetchTzOnline_run. cbv zeta.
    destruct (cache_file (fs w)) as [f|]; [|reflexivity].
    by rewrite (Hc f eq_refl). }
  rewrite E, fetch_fresh_cases. cbn [trace fs]. subst req w'.
  split; [|split].
  - by intros m ->.
  - intros r -> Hok. by rewrite Hok.
  - intros r m -> Hok Hm. by rewrite Hok, Hm.
Qed.

Lemma fetchTzOnline_failed_refresh_witness :
  fetchTzOnline
    {| cal := utc; now := 1700003000000; write_time := 1700003000250;
       api := fun _ _ =>
         Responded {| status := 503; statusText := js "Service Unavailable";
                      body := js "busy" |};
       JSON_parse := fun _ => Throw (js "Unexpected token");
       JSON_stringify := fun _ => js "{}" |}
    None
    {| fs := Dir (Some {| mtime := 1700000000000; content := js "{}" |});
       trace := [] |}
  = (Throw (js "HTTP error! status: " ++ of_Z 503),
     {| fs := Dir (Some {| mtime := 1700000000000; content := js "{}" |});
        trace := [] ++ [Fetch (tz_request None)] |}).
Proof.
  apply (proj1 (proj2 (fetchTzOnline_failed_refresh
           {| cal := utc; now := 1700003000000; write_time := 1700003000250;
              api := fun _ _ =>
                Responded {| status := 503;
                             statusText := js "Service Unavailable";
                             body := js "busy" |};
              JSON_parse := fun _ => Throw (js "Unexpected token");
              JSON_stringify := fun _ => js "{}" |}
           None
           {| fs := Dir (Some {| mtime := 1700000000000;
                                 content := js "{}" |});
              trace := [] |}
           ltac:(intros f [= <-]; vm_compute; reflexivity)))
           {| status := 503; statusText := js "Service Unavailable";
              body := js "busy" |}).
  - reflexivity.
  - reflexivity.
Defined.

(** X10. Whatever the cache, the clock and the server: the call issues at
    most one request, the GET of [tz_request]; afterwards the cache
    directory exists; when the call throws the cache file is the one
    found; when it returns there is a cache file. *)
Theorem fetchTzOnline_invariants env config w :
  let result := fetchTzOnline env config w in
  (trace (snd result) = trace w
   \/ trace (snd result) = trace w ++ [Fetch (tz_request config)])
  /\ fs (snd result) <> NoDir
  /\ (forall m, fst result = Throw m ->
        fs (snd result) = ensure_dir (fs w))
  /\ (forall data, fst result = Return data ->
        is_Some (cache_file (fs (snd result)))).
Proof.
  cbv zeta. rewrite fetchTzOnline_run. cbv zeta.
  assert (Hd : ensure_dir (fs w) <> NoDir) by by destruct (fs w).
  assert (Hfresh :
    let result := fetch_fresh env config
                    {| fs := ensure_dir (fs w); trace := trace w |} in
    (trace (snd result) = trace w
     \/ trace (snd result) = trace w ++ [Fetch (tz_request config)])
    /\ fs (snd result) <> NoDir
    /\ (forall m, fst result = Throw m ->
          fs (snd result) = ensure_dir (fs w))
    /\ (forall data, fst result = Return data ->
          is_Some (cache_file (fs (snd result))))).
  { cbv zeta. rewrite fetch_fresh_cases. cbn [trace fs].
    destruct (api env (trace w) (tz_request config)) as [m|r].
    { simpl. split; [by right|]. split; [done|]. by split. }
    destruct (ok r);
      [|simpl; split; [by right|]; split; [done|]; by split].
    destruct (JSON_parse env (body r)) as [data|m]; simpl.
    - split; [by right|]. split; [done|]. split; [done|].
      intros _ _. by eexists.
    - split; [by right|]. split; [done|]. by split. }
  destruct (cache_file (fs w)) as [f|] eqn:Ef; [|exact Hfresh].
  destruct (cache_valid env f); [|exact Hfresh].
  simpl. split; [by left|]. split; [exact Hd|]. split; [done|].
  intros _ _. destruct (fs w) as [|file]; [discriminate Ef|].
  simpl in *. subst file. by eexists.
Qed.

(** X11. With no cache file, or no cache directory, the request is always
    issued; on a 2xx response with a JSON body the file is created with
    the body as serialised and the parsed body is returned. *)
Theorem fetchTzOnline_cold env config w :
  cache_file (fs w) = None ->
  let req := tz_request config in
  trace (snd (fetchTzOnline env config w)) = trace w ++ [Fetch req]
  /\ forall r data,
       api env (trace w) req = Responded r -> ok r = true ->
       JSON_parse env (body r) = Return data ->
       fetchTzOnline env config w
       = (Return data,
          {| fs := Dir (Some {| mtime := write_time env;
                                content := JSON_stringify env data |});
             trace := trace w ++ [Fetch req] |}).
Proof.
  intros Hc req. subst req. rewrite fetchTzOnline_run, Hc. cbv zeta.
  apply (fetch_fresh_run env config
           {| fs := ensure_dir (fs w); trace := trace w |}).
Qed.

Lemma fetchTzOnline_cold_witness :
  fetchTzOnline (example_env 1700000600000) None {| fs := NoDir; trace := [] |}
  = (Return (JObj []),
     {| fs := Dir (Some {| mtime := write_time (example_env 1700000600000);
                           content := js "{}" |});
        trace := [] ++ [Fetch (tz_request None)] |}).
Proof.
  apply (proj2 (fetchTzOnline_cold (example_env 1700000600000) None
                  {| fs := NoDir; trace := [] |} eq_refl)
           {| status := 200; statusText := js "OK"; body := js "{}" |}
           (JObj [])).
  - reflexivity.
  - reflexivity.
  - reflexivity.
Defined.

(** X12. A payload fetched and cached is served again by a later call
    inside the validity window, with no request and no write, provided
    [JSON.parse] reads back what [JSON.stringify] wrote. *)
Theorem fetchTzOnline_round_trip env1 env2 config config' w r data :
  (forall f, cache_file (fs w) = Some f -> cache_valid env1 f = false) ->
  api env1 (trace w) (tz_request config) = Responded r ->
  ok r = true ->
  JSON_parse env1 (body r) = Return data ->
  reusable env2 (write_time env1) ->
  JSON_parse env2 (JSON_stringify env1 data) = Return data ->
  exists w1,
    fetchTzOnline env1 config w = (Return data, w1)
    /\ fetchTzOnline env2 config' w1 = (Return data, w1).
Proof.
  intros Hc Hr Hok Hj Hre Hrt.
  eexists. split.
  - rewrite fetchTzOnline_run. cbv zeta.
    assert (E : match cache_file (fs w) with
                | Some f =>
                  if cache_valid env1 f
                  then (JSON_parse env1 (content f),
                        {| fs := ensure_dir (fs w); trace := trace w |})
                  else fetch_fresh env1 config
                         {| fs := ensure_dir (fs w); trace := trace w |}
                | None => fetch_fresh env1 config
                            {| fs := ensure_dir (fs w); trace := trace w |}
                end
                = fetch_fresh env1 config
                    {| fs := ensure_dir (fs w); trace := trace w |}).
    { destruct (cache_file (fs w)) as [f|]; [|reflexivity].
      by rewrite (Hc f eq_refl). }
    rewrite E, fetch_fresh_cases. cbn [trace fs].
    rewrite Hr, Hok, Hj. reflexivity.
  - rewrite fetchTzOnline_run. cbn [fs trace cache_file ensure_dir content].
    cbv zeta.
    rewrite (proj2 (cache_valid_iff env2 _)) by exact Hre.
    by rewrite Hrt.
Qed.

Lemma fetchTzOnline_round_trip_witness :
  exists w1,
    fetchTzOnline (example_env 1700000000000) None
      {| fs := NoDir; trace := [] |} = (Return (JObj []), w1)
    /\ fetchTzOnline (example_env 1700000600000) None w1
       = (Return (JObj []), w1).
Proof.
  apply (fetchTzOnline_round_trip (example_env 1700000000000)
           (example_env 1700000600000) None None
           {| fs := NoDir; trace := [] |}
           {| status := 200; statusText := js "OK"; body := js "{}" |}
           (JObj [])).
  - intros f [=].
  - reflexivity.
  - reflexivity.
  - reflexivity.
  - vm_compute. repeat split.
  - reflexivity.
Defined.

(** [getTzInfo] throws what [fetchTzOnline] or [processTzOnlineData]
    throws: its [catch] only rethrows. *)
Lemma getTzInfo_run env areas config w :
  getTzInfo env areas config w =
  match fetchTzOnline env config w with
  | (Return data, w') => (processTzOnlineData areas data, w')
  | (Throw m, w') => (Throw m, w')
  end.
Proof.
  unfold getTzInfo, try_catch, bind, lift, throw.
  destruct (fetchTzOnline env config w) as [[data|m] w']; [|reflexivity].
  by destruct (processTzOnlineData areas data).
Qed.

(** X13. The [d2rtz] command never throws: it replies with the status
    string when fetching and formatting succeed, and otherwise with
    "获取TZ信息失败: " followed by the message of the error, whichever step
    threw it. *)
Theorem d2rtz_reply env areas config w :
  d2rtz_action env areas config w =
  (Return
     match fst (fetchTzOnline env config w) with
     | Return data =>
       match processTzOnlineData areas data with
       | Return info => info
       | Throw m => js "获取TZ信息失败: " ++ m
       end
     | Throw m => js "获取TZ信息失败: " ++ m
     end,
   snd (fetchTzOnline env config w)).
Proof.
  unfold d2rtz_action, try_catch, ret. rewrite getTzInfo_run.
  destruct (fetchTzOnline env config w) as [[data|m] w']; cbn [fst snd];
    [|reflexivity].
  destruct (processTzOnlineData areas data); reflexivity.
Qed.

(** X14. A 2xx payload is written to the cache before it is examined: when
    the formatter rejects it, the command replies with the failure
    message and the cache file holds the rejected payload. *)
Theorem d2rtz_caches_rejected_payload env areas config w r data m :
  (forall f, cache_file (fs w) = Some f -> cache_valid env f = false) ->
  api env (trace w) (tz_request config) = Responded r ->
  ok r = true ->
  JSON_parse env (body r) = Return data ->
  processTzOnlineData areas data = Throw m ->
  d2rtz_action env areas config w
  = (Return (js "获取TZ信息失败: " ++ m),
     {| fs := Dir (Some {| mtime := write_time env;
                           content := JSON_stringify env data |});
        trace := trace w ++ [Fetch (tz_request config)] |}).
Proof.
  intros Hc Hr Hok Hj Hp.
  unfold d2rtz_action, try_catch, ret. rewrite getTzInfo_run.
  assert (E : fetchTzOnline env config w
              = (Return data,
                 {| fs := Dir (Some {| mtime := write_time env;
                                       content := JSON_stringify env data |});
                    trace := trace w ++ [Fetch (tz_request config)] |})).
  { rewrite fetchTzOnline_run. cbv zeta.
    destruct (cache_file (fs w)) as [f|] eqn:Ef.
    - rewrite (Hc f eq_refl), fetch_fresh_cases. cbn [trace fs].
      by rewrite Hr, Hok, Hj.
    - rewrite fetch_fresh_cases. cbn [trace fs]. by rewrite Hr, Hok, Hj. }
  by rewrite E, Hp.
Qed.

Lemma d2rtz_caches_rejected_payload_witness :
  d2rtz_action (example_env 1700000000000) example_areas None
    {| fs := NoDir; trace := [] |}
  = (Return (js "获取TZ信息失败: " ++ js "Invalid data format"),
     {| fs := Dir (Some {| mtime := write_time (example_env 1700000000000);
                           content := js "{}" |});
        trace := [] ++ [Fetch (tz_request None)] |}).
Proof.
  apply (d2rtz_caches_rejected_payload (example_env 1700000000000)
           example_areas None {| fs := NoDir; trace := [] |}
           {| status := 200; statusText := js "OK"; body := js "{}" |}
           (JObj []) (js "Invalid data format")).
  - intros f [=].
  - reflexivity.
  - reflexivity.
  - reflexivity.
  - reflexivity.
Defined.

End FetchMore.

(** ** More on the OCR and AI calls and the appraisal command *)

Section BotMore.
Import JsStr Eff Ocr Bot.

(** [recognizeImage] with mock mode off, by what the server does. *)
Lemma recognizeImage_run env config imageUrl w :
  mockMode config = false ->
  let req := ocr_request config imageUrl in
  let w1 := after w [ocr_start imageUrl; Fetch req] in
  recognizeImage env config imageUrl w =
  match net env (trace w ++ [ocr_start imageUrl]) req with
  | NetworkError m => (Return (ocr_failure (js "OCR识别出错: " ++ m)), w1)
  | Responded r =>
    if ok r then
      match read_content env (body r) with
      | Return content =>
        (Return {| ocr_success := true;
                   ocr_text := Some (or_else content ocr_fallback);
                   ocr_error := None |},
         after w [ocr_start imageUrl; Fetch req;
                  Log (js "OCR识别结果: " ++ show_result env (body r))])
      | Throw m => (Return (ocr_failure (js "OCR识别出错: " ++ m)), w1)
      end
    else
      (Return (ocr_failure (js "OCR请求失败: " ++ of_Z (status r) ++ js " "
                            ++ statusText r)), w1)
  end.
Proof.
  intros Hm req w1. subst req w1. unfold recognizeImage. rewrite Hm.
  fold (ocr_start imageUrl). rewrite bind_emit.
  unfold try_catch. rewrite bind_run, fetch_run. cbn [trace after].
  destruct (net env _ _) as [m|r].
  - unfold ret, ocr_failure. rewrite after_after. reflexivity.
  - destruct (ok r); cbn [negb].
    + rewrite bind_run. unfold lift.
      destruct (read_content env (body r)) as [content|m].
      * rewrite bind_emit. unfold ret, ocr_fallback.
        do 2 rewrite after_after. reflexivity.
      * unfold ret, ocr_failure. rewrite after_after. reflexivity.
    + unfold ret, ocr_failure. rewrite after_after. reflexivity.
Qed.

(** [analyzeItem] on a string with mock mode off, by what the server
    does. *)
Lemma analyzeItem_run env config ocrText w :
  mockMode config = false ->
  let req := ai_call env config ocrText in
  let w1 := after w (ai_start ocrText ++ [Fetch req]) in
  analyzeItem env config (VStr ocrText) w =
  match net env (trace w ++ ai_start ocrText) req with
  | NetworkError m => (Return (ai_failure (js "AI分析出错: " ++ m)), w1)
  | Responded r =>
    if ok r then
      match read_content env (body r) with
      | Return content =>
        (Return {| success := true;
                   analysis := Some (or_else content ai_fallback);
                   error := None |},
         after w (ai_start ocrText ++
                  [Fetch req;
                   Log (js "AI分析结果: " ++ show_result env (body r))]))
      | Throw m => (Return (ai_failure (js "AI分析出错: " ++ m)), w1)
      end
    else
      (Return (ai_failure (js "AI分析请求失败: " ++ of_Z (status r) ++ js " "
                           ++ statusText r)), w1)
  end.
Proof.
  intros Hm req w1. subst req w1. unfold analyzeItem. rewrite Hm.
  cbv zeta. cbn [show]. rewrite !bind_emit.
  unfold try_catch. rewrite bind_run, fetch_run.
  rewrite after_after. cbn [trace after app].
  unfold ai_call, ai_start.
  destruct (net env _ _) as [m|r].
  - unfold ret, ai_failure. rewrite after_after. reflexivity.
  - destruct (ok r); cbn [negb].
    + rewrite bind_run. unfold lift.
      destruct (read_content env (body r)) as [content|m].
      * rewrite bind_emit. unfold ret, ai_fallback.
        do 2 rewrite after_after. reflexivity.
      * unfold ret, ai_failure. rewrite after_after. reflexivity.
    + unfold ret, ai_failure. rewrite after_after. reflexivity.
Qed.

(** [analyzeItem] on a value that is not a string, with mock mode off:
    the first [replace] throws, after the opening log line and before
    anything else. *)
Lemma analyzeItem_not_string env config v w :
  mockMode config = false ->
  not_string v ->
  analyzeItem env config v w
  = (Throw (no_replace v), after w [Log (js "开始AI分析装备: " ++ show v)]).
Proof.
  intros Hm Hv. unfold analyzeItem. rewrite Hm, bind_emit.
  destruct v; [destruct Hv|reflexivity|reflexivity|reflexivity].
Qed.

Lemma recognizeImage_mock env config imageUrl w :
  mockMode config = true ->
  recognizeImage env config imageUrl w
  = (Return {| ocr_success := true; ocr_text := Some (VStr mock_ocr_text);
               ocr_error := None |},
     after w [ocr_start imageUrl; Log (js "使用Mock模式进行OCR识别");
              Sleep 1000]).
Proof.
  intros Hm. unfold recognizeImage. rewrite Hm. fold (ocr_start imageUrl).
  rewrite !bind_emit. unfold ret. do 2 rewrite after_after. reflexivity.
Qed.

Lemma analyzeItem_mock env config ocrText w :
  mockMode config = true ->
  analyzeItem env config ocrText w
  = (Return {| success := true; analysis := Some (VStr mock_analysis);
               error := None |},
     after w [Log (js "开始AI分析装备: " ++ show ocrText);
              Log (js "使用Mock模式进行AI分析"); Sleep 1500]).
Proof.
  intros Hm. unfold analyzeItem. rewrite Hm.
  rewrite !bind_emit. unfold ret. do 2 rewrite after_after. reflexivity.
Qed.

Lemma app_nonempty (p m : str) : p <> [] -> p ++ m <> [].
Proof. by destruct p. Qed.

Lemma or_else_truthy content fallback :
  fallback <> [] -> is_truthy (or_else content fallback) = true.
Proof.
  intros Hf. unfold or_else. destruct (is_truthy content) eqn:E; [exact E|].
  by destruct fallback.
Qed.

Lemma or_else_falsy content fallback :
  is_truthy content = false -> or_else content fallback = VStr fallback.
Proof. intros E. unfold or_else. by rewrite E. Qed.

Lemma or_else_kept content fallback :
  is_truthy content = true -> or_else content fallback = content.
Proof. intros E. unfold or_else. by rewrite E. Qed.

Lemma mock_ocr_text_truthy : is_truthy (VStr mock_ocr_text) = true.
Proof. vm_compute. reflexivity. Qed.

Lemma mock_analysis_truthy : is_truthy (VStr mock_analysis) = true.
Proof. vm_compute. reflexivity. Qed.

Lemma after_nil w : after w [] = w.
Proof. destruct w. unfold after. simpl. by rewrite app_nil_r. Qed.

Lemma requests_of_app l1 l2 :
  requests_of (l1 ++ l2) = requests_of l1 ++ requests_of l2.
Proof.
  induction l1 as [|[m|ms|req] l1 IH]; simpl; [done|done|done|].
  by rewrite IH.
Qed.

Lemma recognizeImage_any env config imageUrl w :
  exists r events,
    recognizeImage env config imageUrl w = (Return r, after w events)
    /\ ocr_shape r
    /\ requests_of events
       = (if mockMode config then [] else [ocr_request config imageUrl]).
Proof.
  destruct (mockMode config) eqn:Hm.
  - eexists _, _. split; [|split].
    + apply (recognizeImage_mock env config imageUrl w Hm).
    + left. cbn [ocr_success ocr_error ocr_text]. split; [done|].
      split; [done|]. eexists. split; [reflexivity|].
      apply mock_ocr_text_truthy.
    + reflexivity.
  - rewrite (recognizeImage_run env config imageUrl w Hm). cbv zeta.
    assert (Hfail : forall p m, p <> [] -> ocr_shape (ocr_failure (p ++ m))).
    { intros p m Hp. right. cbn. split; [done|]. split; [done|].
      eexists. split; [reflexivity|]. by apply app_nonempty. }
    destruct (net env _ _) as [m|r].
    + eexists _, _. split; [reflexivity|]. split; [|reflexivity].
      apply Hfail. vm_compute. discriminate.
    + destruct (ok r).
      * destruct (read_content env (body r)) as [content|m].
        -- eexists _, _. split; [reflexivity|]. split; [|reflexivity].
           left. cbn [ocr_success ocr_error ocr_text]. split; [done|].
           split; [done|]. eexists. split; [reflexivity|].
           apply or_else_truthy. vm_compute. discriminate.
        -- eexists _, _. split; [reflexivity|]. split; [|reflexivity].
           apply Hfail. vm_compute. discriminate.
      * eexists _, _. split; [reflexivity|]. split; [|reflexivity].
        apply Hfail. vm_compute. discriminate.
Qed.

Lemma analyzeItem_any env config ocrText w :
  exists r events,
    analyzeItem env config (VStr ocrText) w = (Return r, after w events)
    /\ ai_shape r
    /\ requests_of events
       = (if mockMode config then [] else [ai_call env config ocrText]).
Proof.
  destruct (mockMode config) eqn:Hm.
  - eexists _, _. split; [|split].
    + apply (analyzeItem_mock env config (VStr ocrText) w Hm).
    + left. cbn [success error analysis]. split; [done|].
      split; [done|]. eexists. split; [reflexivity|].
      apply mock_analysis_truthy.
    + reflexivity.
  - rewrite (analyzeItem_run env config ocrText w Hm). cbv zeta.
    assert (Hfail : forall p m, p <> [] -> ai_shape (ai_failure (p ++ m))).
    { intros p m Hp. right. cbn. split; [done|]. split; [done|].
      eexists. split; [reflexivity|]. by apply app_nonempty. }
    destruct (net env _ _) as [m|r].
    + eexists _, _. split; [reflexivity|]. split; [|reflexivity].
      apply Hfail. vm_compute. discriminate.
    + destruct (ok r).
      * destruct (read_content env (body r)) as [content|m].
        -- eexists _, _. split; [reflexivity|]. split; [|reflexivity].
           left. cbn [success error analysis]. split; [done|].
           split; [done|]. eexists. split; [reflexivity|].
           apply or_else_truthy. vm_compute. discriminate.
        -- eexists _, _. split; [reflexivity|]. split; [|reflexivity].
           apply Hfail. vm_compute. discriminate.
      * eexists _, _. split; [reflexivity|]. split; [|reflexivity].
        apply Hfail. vm_compute. discriminate.
Qed.

(** When the text of a successful result is not a string, it is the
    content the server sent. *)
Lemma recognizeImage_odd_text env config imageUrl w t :
  fst (recognizeImage env config imageUrl w)
  = Return {| ocr_success := true; ocr_text := Some t; ocr_error := None |} ->
  not_string t ->
  mockMode config = false
  /\ exists r,
       net env (trace w ++ [ocr_start imageUrl]) (ocr_request config imageUrl)
       = Responded r
       /\ ok r = true
       /\ read_content env (body r) = Return t
       /\ is_truthy t = true.
Proof.
  intros E Ht. destruct (mockMode config) eqn:Hm.
  - rewrite (recognizeImage_mock env config imageUrl w Hm) in E.
    cbn [fst] in E. injection E as <-. destruct Ht.
  - split; [reflexivity|].
    rewrite (recognizeImage_run env config imageUrl w Hm) in E.
    cbv zeta in E.
    destruct (net env _ _) as [m|r]; [discriminate E|].
    exists r. split; [reflexivity|].
    destruct (ok r); [|discriminate E]. split; [reflexivity|].
    destruct (read_content env (body r)) as [content|m]; [|discriminate E].
    cbn [fst] in E. injection E as E.
    destruct (is_truthy content) eqn:Hc.
    + rewrite (or_else_kept _ _ Hc) in E. subst t. by split.
    + rewrite (or_else_falsy _ _ Hc) in E. subst t. destruct Ht.
Qed.

(** X15. [recognizeImage] never throws, whatever the configuration and
    the server: it returns either [{success: true, text}] with a truthy
    text and no error, or [{success: false, error}] with a non-empty error
    and no text.  The text is a non-empty string, unless the server, with
    mock mode off, answered 2xx with a truthy content of another kind:
    then the text is that content.  With mock mode off exactly one
    request is issued, with mock mode on none. *)
Theorem recognizeImage_result env config imageUrl w :
  exists r events,
    recognizeImage env config imageUrl w = (Return r, after w events)
    /\ ((ocr_success r = true /\ ocr_error r = None /\
         exists t, ocr_text r = Some t /\ is_truthy t = true
           /\ (not_string t ->
               mockMode config = false
               /\ exists resp,
                    net env (trace w ++ [ocr_start imageUrl])
                      (ocr_request config imageUrl) = Responded resp
                    /\ ok resp = true
                    /\ read_content env (body resp) = Return t))
        \/ (ocr_success r = false /\ ocr_text r = None /\
            exists e, ocr_error r = Some e /\ e <> []))
    /\ requests_of events
       = (if mockMode config then [] else [ocr_request config imageUrl]).
Proof.
  destruct (recognizeImage_any env config imageUrl w)
    as (r & ev & E & Hs & Hr).
  exists r, ev. split; [exact E|]. split; [|exact Hr].
  destruct Hs as [(Hok & He & t & Ht & Htr)|Hfail]; [left|by right].
  split; [exact Hok|]. split; [exact He|]. exists t.
  split; [exact Ht|]. split; [exact Htr|]. intros Hns.
  destruct (recognizeImage_odd_text env config imageUrl w t) as (Hm & resp & H).
  - rewrite E. cbn [fst]. destruct r as [s o e]. cbn in Hok, He, Ht.
    by subst.
  - exact Hns.
  - split; [exact Hm|]. exists resp. tauto.
Qed.



Lemma truthy_app (p m : str) : p <> [] -> is_truthy (VStr (p ++ m)) = true.
Proof. by destruct p. Qed.

Lemma report_shape r :
  ai_shape r -> exists reply, report r = Some reply /\ is_truthy reply = true.
Proof.
  unfold report.
  intros [(Hs & _ & t & Ht & Hne)|(Hs & _ & e & He & Hne)]; rewrite Hs.
  - exists t. by split.
  - rewrite He. eexists. split; [reflexivity|].
    apply truthy_app. vm_compute. discriminate.
Qed.

(** The tail of the handler on a text that is a string. *)
Lemma appraise_tail env config text w :
  exists reply events,
    (analysisResult <- analyzeItem env config (VStr text) ;;
     ret (report analysisResult)) w
    = (Return (Some reply), after w events)
    /\ is_truthy reply = true
    /\ requests_of events
       = (if mockMode config then [] else [ai_call env config text]).
Proof.
  rewrite bind_run.
  destruct (analyzeItem_any env config text w) as (r & ev & E & Hs & Hr).
  rewrite E. destruct (report_shape r Hs) as (reply & Hrep & Hne).
  exists reply, ev. unfold ret. by rewrite Hrep.
Qed.

(** The handler with test mode off and an image, by the result of
    [recognizeImage]. *)
Lemma appraise_normal env config image s w :
  testMode config = false ->
  appraise env config image (Some s) w =
  match recognizeImage env config s (after w [link s]) with
  | (Return ocrResult, w') =>
    if negb (ocr_success ocrResult)
    then (Return (Some (VStr (js "装备属性识别失败: "
                              ++ render (ocr_error ocrResult)))), w')
    else (analysisResult <-
            analyzeItem env config (field (ocr_text ocrResult)) ;;
          ret (report analysisResult)) w'
  | (Throw m, w') => (Throw m, w')
  end.
Proof.
  intros Ht. unfold appraise. rewrite Ht. fold (link s).
  rewrite bind_emit, bind_run.
  destruct (recognizeImage env config s (after w [link s])) as [[r|m] w'];
    [|reflexivity].
  by destruct (negb (ocr_success r)).
Qed.

Lemma trace_after w events : trace (after w events) = trace w ++ events.
Proof. reflexivity. Qed.

Lemma appraise_failed_ocr env config image s w e w' :
  testMode config = false ->
  recognizeImage env config s (after w [link s])
  = (Return (ocr_failure e), w') ->
  appraise env config image (Some s) w
  = (Return (Some (VStr (js "装备属性识别失败: " ++ e))), w').
Proof.
  intros Ht E. rewrite (appraise_normal env config image s w Ht), E.
  reflexivity.
Qed.

Lemma appraise_ok_ocr env config image s w v w' :
  testMode config = false ->
  recognizeImage env config s (after w [link s])
  = (Return {| ocr_success := true; ocr_text := Some v;
               ocr_error := None |}, w') ->
  appraise env config image (Some s) w
  = (analysisResult <- analyzeItem env config v ;;
     ret (report analysisResult)) w'.
Proof.
  intros Ht E. rewrite (appraise_normal env config image s w Ht), E.
  reflexivity.
Qed.

(** One run of the appraisal command: either it replies, and then the
    server sent no odd content, or the server sent one and the run ends
    in the [TypeError]. *)
Lemma appraise_cases env config image src w :
  exists o events,
    appraise env config image src w = (o, after w events)
    /\ allowed_requests env config image src (requests_of events)
    /\ ((exists reply,
           o = Return (Some reply)
           /\ is_truthy reply = true
           /\ forall content, ~ odd_content env config src w content)
        \/ (exists s r content,
              src = Some s
              /\ odd_content env config src w content
              /\ net env (trace w ++ [link s; ocr_start s])
                   (ocr_request config s) = Responded r
              /\ read_content env (body r) = Return content
              /\ o = Throw (js "ocrText.replace is not a function")
              /\ events
                 = [link s; ocr_start s; Fetch (ocr_request config s);
                    Log (js "OCR识别结果: " ++ show_result env (body r));
                    Log (js "开始AI分析装备: " ++ show content)])).
Proof.
  destruct (testMode config) eqn:Ht.
  - assert (Hno : forall content, ~ odd_content env config src w content).
    { intros c (_ & Ht' & _). congruence. }
    destruct image as [text|].
    + destruct (appraise_tail env config text (after w [test_note]))
        as (reply & ev & E & Hne & Hr).
      exists (Return (Some reply)), ([test_note] ++ ev). split.
      { unfold appraise. rewrite Ht. fold test_note.
        rewrite bind_emit, E, after_after. reflexivity. }
      split.
      { unfold allowed_requests.
        rewrite Ht, requests_of_app, Hr. cbn [requests_of test_note app].
        by destruct (mockMode config). }
      left. by exists reply.
    + eexists _, []. split.
      { unfold appraise. rewrite Ht. unfold ret. rewrite after_nil.
        reflexivity. }
      split.
      { unfold allowed_requests. rewrite Ht. by destruct (mockMode config). }
      left. eexists. split; [reflexivity|].
      split; [vm_compute; reflexivity|exact Hno].
  - destruct src as [s|].
    2:{ eexists _, []. split.
        { unfold appraise. rewrite Ht. unfold ret. rewrite after_nil.
          reflexivity. }
        split.
        { unfold allowed_requests. rewrite Ht.
          by destruct (mockMode config). }
        left. eexists. split; [reflexivity|].
        split; [vm_compute; reflexivity|].
        intros c (_ & _ & s' & r' & Hs & _). discriminate Hs. }
    destruct (mockMode config) eqn:Hm.
    { pose proof (appraise_ok_ocr env config image s w _ _ Ht
                    (recognizeImage_mock env config s _ Hm)) as EA.
      destruct (appraise_tail env config mock_ocr_text
                  (after (after w [link s])
                     [ocr_start s; Log (js "使用Mock模式进行OCR识别");
                      Sleep 1000]))
        as (reply & ev & E & Hne & Hr).
      rewrite E in EA. do 2 rewrite after_after in EA.
      eexists _, _. split; [exact EA|]. split.
      { unfold allowed_requests.
        rewrite Hm, !requests_of_app, Hr, Hm. reflexivity. }
      left. exists reply. split; [reflexivity|]. split; [exact Hne|].
      intros c (Hm' & _). congruence. }
    pose proof (recognizeImage_run env config s (after w [link s]) Hm) as ER.
    cbv zeta in ER. rewrite trace_after, <- app_assoc in ER.
    cbn [app] in ER.
    assert (Hfail : forall e ev,
      recognizeImage env config s (after w [link s])
      = (Return (ocr_failure e), after (after w [link s]) ev) ->
      requests_of ev = [ocr_request config s] ->
      e <> [] ->
      (forall c, ~ odd_content env config (Some s) w c) ->
      exists o events,
        appraise env config image (Some s) w = (o, after w events)
        /\ allowed_requests env config image (Some s) (requests_of events)
        /\ ((exists reply,
               o = Return (Some reply)
               /\ is_truthy reply = true
               /\ forall c, ~ odd_content env config (Some s) w c)
            \/ (exists s0 r0 content0,
                  Some s = Some s0
                  /\ odd_content env config (Some s) w content0
                  /\ net env (trace w ++ [link s0; ocr_start s0])
                       (ocr_request config s0) = Responded r0
                  /\ read_content env (body r0) = Return content0
                  /\ o = Throw (js "ocrText.replace is not a function")
                  /\ events
                     = [link s0; ocr_start s0; Fetch (ocr_request config s0);
                        Log (js "OCR识别结果: "
                             ++ show_result env (body r0));
                        Log (js "开始AI分析装备: " ++ show content0)]))).
    { intros e ev E Hev He Hno.
      pose proof (appraise_failed_ocr env config image s w e _ Ht E) as EA.
      rewrite after_after in EA.
      eexists _, _. split; [exact EA|]. split.
      { unfold allowed_requests.
        rewrite Hm, Ht, requests_of_app, Hev. by left. }
      left. eexists. split; [reflexivity|]. split; [|exact Hno].
      apply truthy_app. vm_compute. discriminate. }
    assert (Hone : requests_of [ocr_start s; Fetch (ocr_request config s)]
                   = [ocr_request config s]) by reflexivity.
    destruct (net env (trace w ++ [link s; ocr_start s])
                (ocr_request config s)) as [m|r] eqn:Hn.
    { apply (Hfail _ _ ER Hone).
      - apply app_nonempty. vm_compute. discriminate.
      - intros c (_ & _ & s' & r' & Hs & Hn' & _).
        injection Hs as <-. congruence. }
    destruct (ok r) eqn:Hok.
    2:{ apply (Hfail _ _ ER Hone).
        - apply app_nonempty. vm_compute. discriminate.
        - intros c (_ & _ & s' & r' & Hs & Hn' & Hok' & _).
          injection Hs as <-. congruence. }
    destruct (read_content env (body r)) as [content|m] eqn:Hc.
    2:{ apply (Hfail _ _ ER Hone).
        - apply app_nonempty. vm_compute. discriminate.
        - intros c (_ & _ & s' & r' & Hs & Hn' & _ & Hc' & _).
          injection Hs as <-. congruence. }
    clear Hfail.
    assert (Hpin : forall c, odd_content env config (Some s) w c ->
                             c = content).
    { intros c (_ & _ & s' & r' & Hs & Hn' & _ & Hc' & _).
      injection Hs as <-. congruence. }
    pose proof (appraise_ok_ocr env config image s w _ _ Ht ER) as EA.
    rewrite after_after in EA. cbn [app] in EA.
    assert (Hstr : forall text,
      or_else content ocr_fallback = VStr text ->
      (forall c, ~ odd_content env config (Some s) w c) ->
      exists o events,
        appraise env config image (Some s) w = (o, after w events)
        /\ allowed_requests env config image (Some s) (requests_of events)
        /\ ((exists reply,
               o = Return (Some reply)
               /\ is_truthy reply = true
               /\ forall c, ~ odd_content env config (Some s) w c)
            \/ (exists s0 r0 content0,
                  Some s = Some s0
                  /\ odd_content env config (Some s) w content0
                  /\ net env (trace w ++ [link s0; ocr_start s0])
                       (ocr_request config s0) = Responded r0
                  /\ read_content env (body r0) = Return content0
                  /\ o = Throw (js "ocrText.replace is not a function")
                  /\ events
                     = [link s0; ocr_start s0; Fetch (ocr_request config s0);
                        Log (js "OCR识别结果: "
                             ++ show_result env (body r0));
                        Log (js "开始AI分析装备: " ++ show content0)]))).
    { intros text Hor Hno. rewrite Hor in EA.
      destruct (appraise_tail env config text
                  (after w [link s; ocr_start s;
                            Fetch (ocr_request config s);
                            Log (js "OCR识别结果: "
                                 ++ show_result env (body r))]))
        as (reply & ev & E & Hne & Hr).
      rewrite E, after_after in EA.
      eexists _, _. split; [exact EA|]. split.
      { unfold allowed_requests. rewrite Hm, Ht, requests_of_app, Hr, Hm.
        right. by exists text. }
      left. exists reply. split; [reflexivity|]. by split. }
    destruct (is_truthy content) eqn:Htr.
    2:{ apply (Hstr ocr_fallback); [by apply or_else_falsy|].
        intros c Hodd. pose proof (Hpin c Hodd) as ->.
        destruct Hodd as (_ & _ & _ & _ & _ & _ & _ & _ & Htr' & _).
        congruence. }
    destruct content as [text| | |b shown].
    + apply (Hstr text); [by apply or_else_kept|].
      intros c Hodd. pose proof (Hpin c Hodd) as ->.
      by destruct Hodd as (_ & _ & _ & _ & _ & _ & _ & _ & _ & Hns).
    + discriminate Htr.
    + discriminate Htr.
    + rewrite (or_else_kept _ _ Htr) in EA. rewrite bind_run in EA.
      rewrite (analyzeItem_not_string env config (VOther b shown) _ Hm I)
        in EA.
      rewrite after_after in EA.
      eexists _, _. split; [exact EA|]. split.
      { unfold allowed_requests. rewrite Hm, Ht. by left. }
      right. exists s, r, (VOther b shown).
      split; [reflexivity|]. split.
      { split; [exact Hm|]. split; [exact Ht|]. exists s, r.
        split; [reflexivity|]. split; [exact Hn|]. split; [exact Hok|].
        split; [exact Hc|]. split; [exact Htr|]. exact I. }
      split; [exact Hn|]. split; [exact Hc|]. split; reflexivity.
Qed.



(** X18. One run of the command issues no request in mock mode; in test
    mode only the AI request for the given text (no OCR request); and
    otherwise the OCR request for the image first, followed by at most one
    AI request. *)
Theorem appraise_requests env config image src w :
  exists events,
    trace (snd (appraise env config image src w)) = trace w ++ events
    /\ (if mockMode config then requests_of events = []
        else if testMode config then
          match image with
          | Some text =>
            requests_of events
            = [ai_request env config
                 (itemAnalysisPrompt env (preprocessOcrText text))]
          | None => requests_of events = []
          end
        else
          match src with
          | Some s =>
            requests_of events = [ocr_request config s]
            \/ exists text,
                 requests_of events
                 = [ocr_request config s;
                    ai_request env config
                      (itemAnalysisPrompt env (preprocessOcrText text))]
          | None => requests_of events = []
          end).
Proof.
  destruct (appraise_cases env config image src w)
    as (o & ev & E & Hr & _).
  exists ev. rewrite E. split; [reflexivity|]. exact Hr.
Qed.

(** X19. With mock mode off, a 2xx answer to the OCR request whose
    content is missing, empty or otherwise falsy is still a success,
    carrying the placeholder text; the command then asks for an analysis
    of the placeholder. *)
Theorem empty_ocr_answer env config image s w r content :
  mockMode config = false ->
  testMode config = false ->
  net env (trace w ++ [link s; ocr_start s]) (ocr_request config s)
  = Responded r ->
  ok r = true ->
  read_content env (body r) = Return content ->
  is_truthy content = false ->
  fst (recognizeImage env config s (after w [link s]))
  = Return {| ocr_success := true;
              ocr_text := Some (VStr (js "无法提取OCR文本"));
              ocr_error := None |}
  /\ exists events,
       trace (snd (appraise env config image (Some s) w)) = trace w ++ events
       /\ requests_of events
          = [ocr_request config s;
             ai_request env config
               (itemAnalysisPrompt env
                  (preprocessOcrText (js "无法提取OCR文本")))].
Proof.
  intros Hm Ht Hr Hok Hc Hempty.
  pose proof (or_else_falsy content ocr_fallback Hempty) as Hor.
  assert (E : recognizeImage env config s (after w [link s])
              = (Return {| ocr_success := true;
                           ocr_text := Some (VStr ocr_fallback);
                           ocr_error := None |},
                 after w [link s; ocr_start s; Fetch (ocr_request config s);
                          Log (js "OCR识别结果: "
                               ++ show_result env (body r))])).
  { rewrite (recognizeImage_run env config s _ Hm). cbv zeta.
    rewrite trace_after, <- app_assoc. cbn [app].
    rewrite Hr, Hok, Hc, Hor, after_after. reflexivity. }
  split; [by rewrite E|].
  rewrite (appraise_ok_ocr env config image s w _ _ Ht E).
  destruct (appraise_tail env config ocr_fallback
              (after w [link s; ocr_start s; Fetch (ocr_request config s);
                        Log (js "OCR识别结果: "
                             ++ show_result env (body r))]))
    as (reply & ev & E2 & _ & Hr2).
  rewrite E2. cbn [snd]. rewrite after_after.
  eexists. split; [reflexivity|].
  rewrite requests_of_app, Hr2, Hm. reflexivity.
Qed.

Lemma empty_ocr_answer_witness :
  fst (recognizeImage
         {| net := fun _ _ =>
              Responded {| status := 200; statusText := js "OK";
                           body := js "{}" |};
            system_prompt := js "system";
            itemAnalysisPrompt := fun text => js "item: " ++ text;
            read_content := fun _ => Return VUndefined;
            show_result := fun text => text |}
         (example_config false false) (js "http://img")
         (after {| fs := NoDir; trace := [] |} [link (js "http://img")]))
  = Return {| ocr_success := true;
              ocr_text := Some (VStr (js "无法提取OCR文本"));
              ocr_error := None |}.
Proof.
  apply (proj1 (empty_ocr_answer
           {| net := fun _ _ =>
                Responded {| status := 200; statusText := js "OK";
                             body := js "{}" |};
              system_prompt := js "system";
              itemAnalysisPrompt := fun text => js "item: " ++ text;
              read_content := fun _ => Return VUndefined;
              show_result := fun text => text |}
           (example_config false false) None (js "http://img")
           {| fs := NoDir; trace := [] |}
           {| status := 200; statusText := js "OK"; body := js "{}" |}
           VUndefined eq_refl eq_refl eq_refl eq_refl eq_refl eq_refl)).
Defined.

(** X20. With mock mode off, a 2xx response whose body cannot be read
    (not JSON, or [null]) is reported as a failure carrying the message of
    the error, by both functions. *)
Theorem unreadable_body env config :
  mockMode config = false ->
  (forall imageUrl w r m,
     net env (trace w ++ [ocr_start imageUrl]) (ocr_request config imageUrl)
     = Responded r ->
     ok r = true -> read_content env (body r) = Throw m ->
     fst (recognizeImage env config imageUrl w)
     = Return {| ocr_success := false; ocr_text := None;
                 ocr_error := Some (js "OCR识别出错: " ++ m) |})
  /\ (forall ocrText w r m,
        net env (trace w ++ ai_start ocrText) (ai_call env config ocrText)
        = Responded r ->
        ok r = true -> read_content env (body r) = Throw m ->
        fst (analyzeItem env config (VStr ocrText) w)
        = Return {| success := false; analysis := None;
                    error := Some (js "AI分析出错: " ++ m) |}).
Proof.
  intros Hm. split.
  - intros imageUrl w r m Hr Hok Hc.
    rewrite (recognizeImage_run env config imageUrl w Hm). cbv zeta.
    by rewrite Hr, Hok, Hc.
  - intros ocrText w r m Hr Hok Hc.
    rewrite (analyzeItem_run env config ocrText w Hm). cbv zeta.
    by rewrite Hr, Hok, Hc.
Qed.

Lemma unreadable_body_witness :
  fst (analyzeItem
         {| net := fun _ _ =>
              Responded {| status := 200; statusText := js "OK";
                           body := js "<html>" |};
            system_prompt := js "system";
            itemAnalysisPrompt := fun text => js "item: " ++ text;
            read_content := fun _ => Throw (js "Unexpected token <");
            show_result := fun text => text |}
         (example_config false false) (VStr (js "力量 +15"))
         {| fs := NoDir; trace := [] |})
  = Return {| success := false; analysis := None;
              error := Some (js "AI分析出错: " ++ js "Unexpected token <") |}.
Proof.
  apply (proj2 (unreadable_body
           {| net := fun _ _ =>
                Responded {| status := 200; statusText := js "OK";
                             body := js "<html>" |};
              system_prompt := js "system";
              itemAnalysisPrompt := fun text => js "item: " ++ text;
              read_content := fun _ => Throw (js "Unexpected token <");
              show_result := fun text => text |}
           (example_config false false) eq_refl)
           (js "力量 +15") {| fs := NoDir; trace := [] |}
           {| status := 200; statusText := js "OK"; body := js "<html>" |}
           (js "Unexpected token <") eq_refl eq_refl eq_refl).
Defined.

(** X21. In mock mode the whole command is canned: with an image it
    replies with the fixed analysis after the two artificial delays, and
    in test mode with a text after the second one, whatever the image,
    the text and the server. *)
Theorem appraise_mock_mode env config w :
  mockMode config = true ->
  (testMode config = false ->
   forall image s,
     appraise env config image (Some s) w
     = (Return (Some (VStr mock_analysis)),
        after w [link s; ocr_start s; Log (js "使用Mock模式进行OCR识别");
                 Sleep 1000;
                 Log (js "开始AI分析装备: " ++ mock_ocr_text);
                 Log (js "使用Mock模式进行AI分析"); Sleep 1500]))
  /\ (testMode config = true ->
      forall text src,
        appraise env config (Some text) src w
        = (Return (Some (VStr mock_analysis)),
           after w [test_note; Log (js "开始AI分析装备: " ++ text);
                    Log (js "使用Mock模式进行AI分析"); Sleep 1500])).
Proof.
  intros Hm. split; intros Ht.
  - intros image s.
    rewrite (appraise_ok_ocr env config image s w _ _ Ht
               (recognizeImage_mock env config s _ Hm)).
    rewrite bind_run, (analyzeItem_mock _ _ _ _ Hm).
    unfold ret, report. cbn [success negb analysis show].
    do 2 rewrite after_after. reflexivity.
  - intros text src. unfold appraise. rewrite Ht. fold test_note.
    rewrite bind_emit, bind_run, (analyzeItem_mock _ _ _ _ Hm).
    unfold ret, report. cbn [success negb analysis show].
    rewrite after_after. reflexivity.
Qed.

Lemma appraise_mock_mode_witness :
  appraise offline_env (example_config true true) (Some (js "力量 +15")) None
    {| fs := NoDir; trace := [] |}
  = (Return (Some (VStr mock_analysis)),
     after {| fs := NoDir; trace := [] |}
       [test_note; Log (js "开始AI分析装备: " ++ js "力量 +15");
        Log (js "使用Mock模式进行AI分析"); Sleep 1500]).
Proof.
  apply (proj2 (appraise_mock_mode offline_env (example_config true true)
                  {| fs := NoDir; trace := [] |} eq_refl) eq_refl
           (js "力量 +15") None).
Defined.

(** Applying [preprocessOcrText] twice is applying it once. *)
Lemma preprocess_twice s :
  preprocessOcrText (preprocessOcrText s) = preprocessOcrText s.
Proof.
  pose proof (cleaned_fix _ (preprocess_cleaned s)) as Hfix.
  pose proof (cl_trimmed _ (preprocess_cleaned s)) as Htrim.
  destruct (find_level_cases (split 10 (clean s)))
    as [Hn|(A & l & B & E & HA & Hl)].
  - rewrite (preprocess_none s Hn) in *.
    rewrite preprocess_none; rewrite Hfix; done.
  - destruct (preprocess_found_lines s A l B E HA Hl) as [_ Hlines].
    assert (Hjoin : preprocessOcrText s
                    = join [10] (take (min 3 (length A)) A ++ l :: B)).
    { by rewrite <- Hlines, join_split. }
    rewrite (preprocess_found (preprocessOcrText s)
               (take (min 3 (length A)) A) l B).
    + rewrite length_take, take_take.
      replace (min (min 3 (min (min 3 (length A)) (length A)))
                   (min 3 (length A)))
        with (min 3 (length A)) by lia.
      rewrite <- Hjoin. by apply trim_id.
    + by rewrite Hfix.
    + by apply Forall_take.
    + exact Hl.
Qed.

(** X22. The AI request carries the preprocessed text, so giving
    [analyzeItem] a text that has already been through
    [preprocessOcrText] leads to the same requests. *)
Theorem analyzeItem_precleaned env config ocrText w w' :
  exists events events',
    trace (snd (analyzeItem env config (VStr ocrText) w)) = trace w ++ events
    /\ trace (snd (analyzeItem env config
                     (VStr (preprocessOcrText ocrText)) w'))
       = trace w' ++ events'
    /\ requests_of events = requests_of events'.
Proof.
  destruct (analyzeItem_any env config ocrText w) as (r & ev & E & _ & Hr).
  destruct (analyzeItem_any env config (preprocessOcrText ocrText) w')
    as (r' & ev' & E' & _ & Hr').
  exists ev, ev'. rewrite E, E'. split; [reflexivity|].
  split; [reflexivity|]. rewrite Hr, Hr'.
  unfold ai_call. by rewrite preprocess_twice.
Qed.

End BotMore.

(** ** [main]: fetching, formatting and posting *)

Section RelayMore.
Import JsStr Eff Tz Relay.

(** [main], by the outcome of its three steps. *)
Lemma main_run relay env areas config w :
  main relay env areas config w =
  match fetchTzOnline env config (base w) with
  | (Throw m, b) => (Throw m, {| base := b; posts := posts w |})
  | (Return data, b) =>
    match processTzOnlineData areas data with
    | Throw m => (Throw m, {| base := b; posts := posts w |})
    | Return message =>
      let w' := {| base := b;
                   posts := posts w ++ [group_post message config] |} in
      match relay (posts w) (group_post message config) with
      | NetworkError m => (Throw m, w')
      | Responded _ => (Return message, w')
      end
    end
  end.
Proof.
  unfold main, rethrow, rbind, in_base, sendGroupMessage, rret, lift.
  destruct (fetchTzOnline env config (base w)) as [[data|m] b];
    [|reflexivity].
  destruct (processTzOnlineData areas data) as [message|m];
    [|reflexivity].
  cbn [base posts].
  by destruct (relay (posts w) (group_post message config)).
Qed.

(** X23. [main] posts at most one message, and only after both the fetch
    and the formatting succeeded; the text posted is the formatted status.
    When [main] returns, what it returns is the text it posted. *)
Theorem main_posts relay env areas config w :
  let result := main relay env areas config w in
  (posts (snd result) = posts w
   \/ exists data message,
        fst (fetchTzOnline env config (base w)) = Return data
        /\ processTzOnlineData areas data = Return message
        /\ posts (snd result) = posts w ++ [group_post message config])
  /\ (forall message,
        fst result = Return message ->
        posts (snd result) = posts w ++ [group_post message config])
  /\ (forall m data,
        fst (fetchTzOnline env config (base w)) = Throw m
        \/ (fst (fetchTzOnline env config (base w)) = Return data
            /\ processTzOnlineData areas data = Throw m) ->
        fst result = Throw m /\ posts (snd result) = posts w).
Proof.
  cbv zeta. rewrite main_run.
  destruct (fetchTzOnline env config (base w)) as [[data|m] b]; cbn [fst].
  - destruct (processTzOnlineData areas data) as [message|m] eqn:Ep.
    + cbv zeta.
      destruct (relay (posts w) (group_post message config)) as [m|r];
        cbn [fst snd posts].
      * split; [right; by exists data, message|].
        split; [done|]. intros m' data' [[=]|[[= <-] Hp]]. congruence.
      * split; [right; by exists data, message|].
        split; [by intros ? [= <-]|].
        intros m' data' [[=]|[[= <-] Hp]]. congruence.
    + cbn [fst snd posts]. split; [by left|]. split; [done|].
      intros m' data' [[=]|[[= <-] Hp]]. split; [congruence | done].
  - cbn [fst snd posts]. split; [by left|]. split; [done|].
    intros m' data' [[= <-]|[[=] _]]. done.
Qed.

(** X24. The relay's answer is not examined: with the status fetched and
    formatted, any response of the relay, 2xx or not, makes [main] return
    the status string ([sendGroupMessage] resolves with the text of the
    response); only a rejected request makes it throw, and then the
    refreshed cache is kept. *)
Theorem main_relay_answer relay env areas config w data b message :
  fetchTzOnline env config (base w) = (Return data, b) ->
  processTzOnlineData areas data = Return message ->
  let post := group_post message config in
  let w' := {| base := b; posts := posts w ++ [post] |} in
  (forall r, relay (posts w) post = Responded r ->
     main relay env areas config w = (Return message, w')
     /\ sendGroupMessage relay message config
          {| base := b; posts := posts w |} = (Return (body r), w'))
  /\ (forall m, relay (posts w) post = NetworkError m ->
        main relay env areas config w = (Throw m, w')).
Proof.
  intros Hf Hp post w'. subst post w'. rewrite main_run, Hf, Hp. cbv zeta.
  unfold sendGroupMessage. cbn [base posts]. split.
  - by intros r ->.
  - by intros m ->.
Qed.

Lemma main_relay_answer_witness :
  main (fun _ _ => Responded {| status := 500;
                                statusText := js "Internal Server Error";
                                body := js "down" |})
    {| cal := utc; now := 1700000600000; write_time := 1700000600250;
       api := fun _ _ =>
         Responded {| status := 200; statusText := js "OK";
                      body := js "payload" |};
       JSON_parse := fun _ => Return example_payload;
       JSON_stringify := fun _ => js "payload" |}
    example_areas None
    {| base := {| fs := NoDir; trace := [] |}; posts := [] |}
  = (Return (js "TZ：B，掉落：Y\nNext：A，掉落：X"),
     {| base := {| fs := Dir (Some {| mtime := 1700000600250;
                                      content := js "payload" |});
                   trace := [Fetch (tz_request None)] |};
        posts := [] ++ [group_post (js "TZ：B，掉落：Y\nNext：A，掉落：X")
                          None] |}).
Proof.
  apply (proj1 (main_relay_answer
           (fun _ _ => Responded {| status := 500;
                                    statusText := js "Internal Server Error";
                                    body := js "down" |})
           {| cal := utc; now := 1700000600000; write_time := 1700000600250;
              api := fun _ _ =>
                Responded {| status := 200; statusText := js "OK";
                             body := js "payload" |};
              JSON_parse := fun _ => Return example_payload;
              JSON_stringify := fun _ => js "payload" |}
           example_areas None
           {| base := {| fs := NoDir; trace := [] |}; posts := [] |}
           example_payload
           {| fs := Dir (Some {| mtime := 1700000600250;
                                 content := js "payload" |});
              trace := [Fetch (tz_request None)] |}
           (js "TZ：B，掉落：Y\nNext：A，掉落：X")
           ltac:(vm_compute; reflexivity) ltac:(vm_compute; reflexivity))
           {| status := 500; statusText := js "Internal Server Error";
              body := js "down" |} eq_refl).
Defined.

End RelayMore.
